(** * answeromr: bubble detection and grading ([omr.py])

    A shallow embedding of [detect_bubbles] and [process_sheet] and the
    properties of the sheet-grading pipeline that follow from them.

    What OpenCV computes is taken as data: a contour is represented by what
    [cv2.contourArea] and [cv2.boundingRect] return for it, and the list of
    contours handed to [detect_bubbles] stands for the result of
    [cv2.findContours] on the mask.  Everything the Python code itself does
    with these values (filtering, sorting, grouping, counting pixels, filling
    the dictionaries, scoring) is modelled step by step. *)

From Stdlib Require Import ZArith QArith Qround Lia List Ascii String.
From Stdlib Require Import Floats.
From Stdlib Require Uint63.
From stdpp Require Import gmap list strings fin_maps.

Local Open Scope Z_scope.

(** ** Python values and built-ins *)

Module Py.

(** A [str] is its sequence of Unicode code points. *)
Definition str := list N.

(** A string literal of the source (ASCII only in [omr.py]). *)
Definition lit (s : string) : str :=
  map N_of_ascii (list_ascii_of_string s).

(** [chr(i)]: the one-character string of code point [i].  CPython raises
    [ValueError] outside [range(0x110000)]; [omr.py] calls it with
    [65 + choice_idx], so that would take a row of over a million bubbles,
    more than the width limit of [cv2.imread] allows.  The model is total. *)
Definition chr (i : Z) : str := [Z.to_N i].

(** The values stored in the answer dictionaries and returned by
    [dict.get]: [None] or a string. *)
Inductive value : Type :=
| PyNone
| PyStr (s : str).

#[global] Instance value_eq_dec : EqDecision value.
Proof. solve_decision. Defined.

(** [v1 == v2] on such values. *)
Definition eqb (v1 v2 : value) : bool := bool_decide (v1 = v2).

(** The exceptions that the modelled code can raise. *)
Inductive exn : Type :=
| ValueError          (* unpacking a tuple of the wrong length *)
| ZeroDivisionError.  (* [/] with a zero divisor *)

(** [d.get(k)]: the stored value, [None] when the key is absent. *)
Definition get (d : gmap Z value) (k : Z) : value :=
  default PyNone (d !! k).

(** [range(a, b)]. *)
Definition range (a b : Z) : list Z :=
  map (fun i => a + Z.of_nat i) (seq 0 (Z.to_nat (b - a))).

(** [enumerate(l)], counting from [i]. *)
Fixpoint enumerate_from {A} (i : Z) (l : list A) : list (Z * A) :=
  match l with
  | [] => []
  | a :: l' => (i, a) :: enumerate_from (i + 1) l'
  end.

Definition enumerate {A} (l : list A) : list (Z * A) := enumerate_from 0 l.

(** [sorted(l, key=key)]: Python's sort is stable, so elements with equal
    keys keep their order. *)
Fixpoint insert_by {A} (key : A -> Z) (a : A) (l : list A) : list A :=
  match l with
  | [] => [a]
  | b :: l' => if key a <=? key b then a :: b :: l' else b :: insert_by key a l'
  end.

Definition sorted {A} (key : A -> Z) (l : list A) : list A :=
  foldr (insert_by key) [] l.

(** A slice bound as Python normalises it against a length [n]. *)
Definition bound (n i : Z) : Z :=
  if i <? 0 then Z.max 0 (i + n) else Z.min i n.

(** [l[lo:hi]]. *)
Definition slice {A} (lo hi : Z) (l : list A) : list A :=
  let n := Z.of_nat (length l) in
  let a := bound n lo in
  let b := bound n hi in
  take (Z.to_nat (b - a)) (drop (Z.to_nat a) l).

End Py.

Import Py.

(** ** OpenCV data *)

(** A binary image as a [numpy] array: rows of pixel values (0 or 255). *)
Definition image := list (list Z).

(** [(x, y, w, h)] as returned by [cv2.boundingRect]. *)
Definition rect := (Z * Z * Z * Z)%type.

Definition rect_x (r : rect) : Z := let '(x, _, _, _) := r in x.
Definition rect_y (r : rect) : Z := let '(_, y, _, _) := r in y.
Definition rect_w (r : rect) : Z := let '(_, _, w, _) := r in w.
Definition rect_h (r : rect) : Z := let '(_, _, _, h) := r in h.

(** A contour, through the two OpenCV functions the code applies to it.
    [cv2.contourArea] returns a float that is a multiple of 1/2, kept here as
    an exact rational.  [cv2.boundingRect] of a contour (which has at least
    one point) has a width and a height of at least 1. *)
Record contour : Type := Contour {
  contourArea : Q;
  boundingRect : rect;
  boundingRect_pos :
    (0 <? rect_w boundingRect) && (0 <? rect_h boundingRect) = true
}.

(** [thresh[y:y+h, x:x+w]]. *)
Definition roi (thresh : image) (x y w h : Z) : image :=
  map (slice x (x + w)) (slice y (y + h) thresh).

(** [cv2.countNonZero]. *)
Definition countNonZero (m : image) : Z :=
  Z.of_nat (length (filter (fun p => p ≠ 0) (concat m))).

(** ** [detect_bubbles] *)

Definition Qlt_bool (a b : Q) : bool := negb (Qle_bool b a).

(** [aspect_ratio = w / float(h)] (line 71), a binary64 quotient in the
    source, kept as the exact quotient.  The height is never 0
    ([boundingRect_pos]), so the division cannot raise. *)
Definition aspect_ratio (cnt : contour) : Q :=
  let '(x, y, w, h) := boundingRect cnt in
  (inject_Z w / inject_Z h)%Q.

(** The test of the filter loop (lines 67-73).  The source compares the
    binary64 quotient with the literals [0.8] and [1.2].  Float division is
    correctly rounded, hence monotone, and the literals are the roundings of
    4/5 and 6/5, so both comparisons agree with the exact ones for every
    height below 2^50. *)
Definition is_bubble (cnt : contour) : bool :=
  let area := contourArea cnt in
  if Qlt_bool 500 area && Qlt_bool area 5000 then
    Qle_bool 0.8 (aspect_ratio cnt) && Qle_bool (aspect_ratio cnt) 1.2
  else false.

(** The filter loop: [bubble_contours] after the loop over [contours]. *)
Definition bubble_contours (contours : list contour) : list contour :=
  fold_left (fun acc cnt => if is_bubble cnt then acc ++ [cnt] else acc)
            contours [].

Definition y_tolerance : Z := 20.

Definition top (b : contour) : Z := rect_y (boundingRect b).
Definition left (b : contour) : Z := rect_x (boundingRect b).

(** State of the row-grouping loop (lines 87-98). *)
Record grouping : Type := Grouping {
  g_rows : list (list contour);
  current_row : list contour;
  current_y : Z
}.

Definition group_step (st : grouping) (bubble : contour) : grouping :=
  let y := top bubble in
  if Z.abs (y - current_y st) <=? y_tolerance then
    Grouping (g_rows st) (current_row st ++ [bubble]) (current_y st)
  else
    Grouping (g_rows st ++ [current_row st]) [bubble] y.

(** [rows] as built from the non-empty list [first :: rest] of sorted
    bubbles, including the final [rows.append(current_row)]. *)
Definition group_rows (first : contour) (rest : list contour)
  : list (list contour) :=
  let st := fold_left group_step rest (Grouping [] [first] (top first)) in
  g_rows st ++ [current_row st].

Abbreviation answers := (gmap Z value).
Abbreviation boxes := (gmap str rect).
Abbreviation coords := (gmap Z (gmap str rect)).

(** State of the loop over the bubbles of one row (lines 110-123). *)
Record scan : Type := Scan {
  max_filled_pixels : Z;
  selected : value;
  coords_per_row : boxes
}.

(** [filled] for one bubble (lines 115-117). *)
Definition filled_of (thresh : image) (bubble_cnt : contour) : Z :=
  let '(x, y, w, h) := boundingRect bubble_cnt in
  countNonZero (roi thresh x y w h).

(** The rectangle stored in [coords_per_row] (line 119). *)
Definition box_of (bubble_cnt : contour) : rect :=
  let '(x, y, w, h) := boundingRect bubble_cnt in
  (x, y, x + w, y + h).

Definition scan_step (thresh : image) (st : scan) (ib : Z * contour) : scan :=
  let '(choice_idx, bubble_cnt) := ib in
  let filled := filled_of thresh bubble_cnt in
  let option_char := chr (65 + choice_idx) in
  let cpr := <[option_char := box_of bubble_cnt]> (coords_per_row st) in
  if max_filled_pixels st <? filled then
    Scan filled (PyStr option_char) cpr
  else
    Scan (max_filled_pixels st) (selected st) cpr.

Definition scan_row (thresh : image) (row_bubbles : list contour) : scan :=
  let row_bubbles_sorted_x := sorted left row_bubbles in
  fold_left (scan_step thresh) (enumerate row_bubbles_sorted_x)
            (Scan 0 PyNone ∅).

(** The value written to [student_answers] for a row (lines 125-128). *)
Definition answer_of (st : scan) : value :=
  if 50 <? max_filled_pixels st then selected st
  else PyStr (lit "Unanswered").

(** Body of the loop over the rows (lines 106-130). *)
Definition row_step (thresh : image) (acc : answers * coords)
    (ir : Z * list contour) : answers * coords :=
  let '(student_answers, coordinates) := acc in
  let '(q_idx, row_bubbles) := ir in
  let st := scan_row thresh row_bubbles in
  (<[q_idx + 1 := answer_of st]> student_answers,
   <[q_idx + 1 := coords_per_row st]> coordinates).

(** What [detect_bubbles] returns: the early exit returns a pair, the normal
    exit a triple. *)
Inductive detected : Type :=
| Tuple2 (student_answers : answers) (coordinates : coords)
| Tuple3 (student_answers : answers) (coordinates : coords)
         (num_questions : Z).

(** [detect_bubbles(thresh)], with [contours] the external contours that
    [cv2.findContours] finds in [thresh].  The source tests
    [not bubble_contours] before sorting (line 77); sorting keeps the
    length, so the test on the sorted list is the same one, and
    [sorted_bubbles[0]] exists on the other branch. *)
Definition detect_bubbles (thresh : image) (contours : list contour)
  : detected :=
  match sorted top (bubble_contours contours) with
  | [] => Tuple2 ∅ ∅
  | first :: rest =>
      let rows := group_rows first rest in
      let num_questions := Z.of_nat (length rows) in
      let '(student_answers, coordinates) :=
        fold_left (row_step thresh) (enumerate rows) (∅, ∅) in
      Tuple3 student_answers coordinates num_questions
  end.

(** ** [process_sheet] *)

(** The four counters of the scoring loop (lines 165-168). *)
Record counters : Type := Counters {
  c_score : Z;
  c_correct : Z;
  c_incorrect : Z;
  c_unanswered : Z
}.

(** Body of the scoring loop (lines 171-180). *)
Definition grade_step (student_answers correct_answers : answers)
    (c : counters) (q : Z) : counters :=
  let student_ans := get student_answers q in
  let correct_ans := get correct_answers q in
  if eqb student_ans correct_ans then
    Counters (c_score c + 1) (c_correct c + 1) (c_incorrect c) (c_unanswered c)
  else if eqb student_ans (PyStr (lit "Unanswered")) then
    Counters (c_score c) (c_correct c) (c_incorrect c) (c_unanswered c + 1)
  else
    Counters (c_score c) (c_correct c) (c_incorrect c + 1) (c_unanswered c).

Definition grade_loop (student_answers correct_answers : answers)
    (total_questions : Z) : counters :=
  fold_left (grade_step student_answers correct_answers)
            (range 1 (total_questions + 1)) (Counters 0 0 0 0).

(** The binary64 value of an integer operand of [/] or [*].  The conversion
    is exact for an operand below 2^53 in absolute value; the operands of
    line 182 are numbers of rows of an image. *)
Definition float_of_int (n : Z) : float :=
  if n <? 0 then PrimFloat.opp (PrimFloat.of_uint63 (Uint63.of_Z (- n)))
  else PrimFloat.of_uint63 (Uint63.of_Z n).

(** The part of the result dictionary that the grading branch fills.  The
    entry ["percentage"] holds the binary64 [percentage_binary64]; the field
    [percentage] is the rational that it approximates, kept beside it for
    the statements that range over all counts. *)
Record graded : Type := Graded {
  correct_answers : answers;
  total_questions : Z;
  score : Z;
  percentage : Q;
  percentage_binary64 : float;
  correct_count : Z;
  incorrect_count : Z;
  unanswered_count : Z
}.

(** Lines 161-188: the scoring loop, then the percentage.  The division
    [score / total_questions] of two integers is a binary64 division, which
    raises [ZeroDivisionError] on a zero divisor, and the product with [100]
    is rounded to binary64 again. *)
Definition grade (student_answers correct_answers : answers)
    (total_questions : Z) : exn + graded :=
  let c := grade_loop student_answers correct_answers total_questions in
  if total_questions =? 0 then inl ZeroDivisionError
  else
    let percentage :=
      ((inject_Z (c_score c) / inject_Z total_questions) * 100)%Q in
    let percentage_binary64 :=
      PrimFloat.mul
        (PrimFloat.div (float_of_int (c_score c))
                       (float_of_int total_questions))
        (float_of_int 100) in
    inr (Graded correct_answers total_questions (c_score c) percentage
                percentage_binary64
                (c_correct c) (c_incorrect c) (c_unanswered c)).


(** [a, b, c = t]: a pair cannot be unpacked into three names. *)
Definition unpack3 (t : detected) : exn + (answers * coords * Z) :=
  match t with
  | Tuple3 a c n => inr (a, c, n)
  | Tuple2 _ _ => inl ValueError
  end.

(** A sheet that [preprocess_image] has loaded: the mask and the contours
    that [cv2.findContours] finds in it. *)
Record sheet : Type := Sheet {
  thresh : image;
  contours : list contour
}.

(** The returned dictionary; the grading entries are present only when a
    key sheet was given. *)
Record result : Type := Result {
  student_answers : answers;
  coordinates : coords;
  grading : option graded
}.

(** [process_sheet], on sheets that were loaded without error. *)
Definition process_sheet (student : sheet) (correct : option sheet)
  : exn + result :=
  match unpack3 (detect_bubbles (thresh student) (contours student)) with
  | inl e => inl e
  | inr (student_answers, coordinates, _) =>
      match correct with
      | None => inr (Result student_answers coordinates None)
      | Some key =>
          match unpack3 (detect_bubbles (thresh key) (contours key)) with
          | inl e => inl e
          | inr (correct_answers, _, correct_q_count) =>
              match grade student_answers correct_answers correct_q_count with
              | inl e => inl e
              | inr g => inr (Result student_answers coordinates (Some g))
              end
          end
      end
  end.

(** Rounding to two decimals, ties to even. *)
Definition two_decimals (q : Q) : Q :=
  let s := (q * 100)%Q in
  let n := Qfloor s in
  let r := (s - inject_Z n)%Q in
  let m := if Qlt_bool r 0.5 then n
           else if Qlt_bool 0.5 r then n + 1
           else if Z.even n then n else n + 1 in
  (inject_Z m / 100)%Q.

(** The rational that a finite binary64 stands for. *)
Definition float_value (x : float) : option Q :=
  match Prim2SF x with
  | S754_zero _ => Some 0%Q
  | S754_finite s m e =>
      Some (inject_Z (if s then Z.neg m else Z.pos m) * 2 ^ e)%Q
  | S754_infinity _ | S754_nan => None
  end.

(** The [:.2f] formatting of the percentage (line 206), as the number it
    prints: the exact value of the binary64, correctly rounded to two
    decimals ([None] for the texts [inf] and [nan]). *)
Definition format_2f (x : float) : option Q :=
  two_decimals <$> float_value x.

(** ** Vocabulary of the statements *)

(** Keys along a list never decrease. *)
Fixpoint ascending {A} (key : A -> Z) (l : list A) : Prop :=
  match l with
  | [] => True
  | a :: l' => Forall (fun b => key a <= key b) l' /\ ascending key l'
  end.

(** The loop as a recursion over the bubbles still to come: [cur] is
    [current_row], [a] is [current_y]. *)
Fixpoint rows_from (a : Z) (cur : list contour) (l : list contour)
  : list (list contour) :=
  match l with
  | [] => [cur]
  | b :: l' =>
      if Z.abs (top b - a) <=? y_tolerance
      then rows_from a (cur ++ [b]) l'
      else cur :: rows_from (top b) [b] l'
  end.

(** The grouping in the words of the specification.  A row is its anchor
    (the first bubble placed in it) followed by bubbles whose Y is within
    the tolerance of the anchor's Y ... *)
Definition row_ok (row : list contour) : Prop :=
  match row with
  | [] => False
  | anchor :: others =>
      Forall (fun b => Z.abs (top b - top anchor) <= 20) others
  end.

(** ... and the bubble that starts the next row is more than the tolerance
    away from the anchor of the row before it. *)
Definition far_apart (r1 r2 : list contour) : Prop :=
  match r1, r2 with
  | a1 :: _, a2 :: _ => 20 < Z.abs (top a2 - top a1)
  | _, _ => False
  end.

Fixpoint breaks (rows : list (list contour)) : Prop :=
  match rows with
  | r1 :: ((r2 :: _) as rows') => far_apart r1 r2 /\ breaks rows'
  | _ => True
  end.

(** [rows] cuts the list [l] into consecutive rows by that rule. *)
Definition row_grouping (l : list contour) (rows : list (list contour))
  : Prop :=
  concat rows = l /\ Forall row_ok rows /\ breaks rows.

(** Rows read from top to bottom: every bubble of a row lies at or below its
    anchor, and each anchor lies more than the tolerance below the one
    before. *)
Definition row_below_anchor (row : list contour) : Prop :=
  match row with
  | [] => False
  | anchor :: others =>
      Forall (fun b => top anchor <= top b <= top anchor + 20) others
  end.

Definition below (r1 r2 : list contour) : Prop :=
  match r1, r2 with
  | a1 :: _, a2 :: _ => top a1 + 20 < top a2
  | _, _ => False
  end.

Fixpoint top_to_bottom (rows : list (list contour)) : Prop :=
  match rows with
  | r1 :: ((r2 :: _) as rows') => below r1 r2 /\ top_to_bottom rows'
  | _ => True
  end.

(** [rows] in [detect_bubbles] (empty when the function leaves early). *)
Definition rows_of (contours : list contour) : list (list contour) :=
  match sorted top (bubble_contours contours) with
  | [] => []
  | first :: rest => group_rows first rest
  end.

(** [m] is the largest fill of the row and [k] the first position that has
    it. *)
Definition first_max (fills : list Z) (k : nat) (m : Z) : Prop :=
  fills !! k = Some m
  /\ (forall j f, fills !! j = Some f -> f <= m)
  /\ (forall j f, (j < k)%nat -> fills !! j = Some f -> f < m).

Definition scan_loop (thresh : image) (i : Z) (l : list contour) (st : scan)
  : scan :=
  fold_left (scan_step thresh) (enumerate_from i l) st.

(** The bubbles of a row in the order in which they are scanned, and their
    fills. *)
Definition options (row_bubbles : list contour) : list contour :=
  sorted left row_bubbles.

Definition fills (thresh : image) (row_bubbles : list contour) : list Z :=
  map (filled_of thresh) (options row_bubbles).

Definition rows_loop (thresh : image) (i : Z) (rows : list (list contour))
    (acc : answers * coords) : answers * coords :=
  fold_left (row_step thresh) (enumerate_from i rows) acc.

(** What the loop body does with one question. *)
Inductive verdict : Type := Correct | Unanswered | Incorrect.

#[global] Instance verdict_eq_dec : EqDecision verdict.
Proof. solve_decision. Defined.

Definition verdict_of (student_answers correct_answers : answers) (q : Z)
  : verdict :=
  if eqb (get student_answers q) (get correct_answers q) then Correct
  else if eqb (get student_answers q) (PyStr (lit "Unanswered"))
       then Unanswered
       else Incorrect.

(** How many questions of [qs] got verdict [v]. *)
Definition tally (student_answers correct_answers : answers) (v : verdict)
    (qs : list Z) : Z :=
  Z.of_nat (length (filter
    (fun q => verdict_of student_answers correct_answers q = v) qs)).

(** The largest fill of a row (fills are pixel counts, so at least 0). *)
Definition max_fill (fs : list Z) : Z := foldr Z.max 0 fs.

(** ** Example sheets *)

Definition blob (area : Q) (x y : Z) : contour :=
  Contour area (x, y, 25, 25) eq_refl.

(** A blank 100 x 100 mask. *)
Definition blank : image := repeat (repeat 0 100%nat) 100%nat.

(** A mask with ink on lines 10 and 11, columns 10 to 34 (50 foreground
    pixels), and [extra] more pixels at the start of line 12. *)
Definition inked (extra : nat) : image :=
  repeat (repeat 0 100%nat) 10%nat
  ++ repeat (repeat 0 10%nat ++ repeat 255 25%nat ++ repeat 0 65%nat) 2%nat
  ++ [repeat 0 10%nat ++ repeat 255 extra ++ repeat 0 (90 - extra)%nat]
  ++ repeat (repeat 0 100%nat) 87%nat.

(** Two rows of bubbles, found in no particular order, and a contour of
    area exactly 500. *)
Definition edge_blob : contour := blob 500 10 100.

Definition example_contours : list contour :=
  [edge_blob; blob 600 10 60; blob 600 50 12; blob 600 10 10].

Definition example_sheet : sheet := Sheet (inked 1) example_contours.
Definition blank_sheet : sheet := Sheet blank [].

Definition example_key : answers :=
  <[1 := PyStr (lit "A")]> (<[2 := PyStr (lit "B")]>
    (<[3 := PyStr (lit "C")]> ∅)).

Definition example_student : answers :=
  <[1 := PyStr (lit "A")]> (<[2 := PyStr (lit "C")]>
    (<[3 := PyStr (lit "Unanswered")]> ∅)).


(** A student sheet with the first row of bubbles only. *)
Definition short_sheet : sheet :=
  Sheet (inked 1) [blob 600 50 12; blob 600 10 10].

(** ** [allowed_file] ([app.py]) *)

Section Lower.

(** [str.lower()]: on a string of ASCII characters it maps [A-Z] to [a-z];
    what Unicode prescribes for any other string is left open. *)
Variable lower_unicode : str -> str.

Definition lower_ascii (c : N) : N :=
  if ((65 <=? c) && (c <=? 90))%N then (c + 32)%N else c.

Definition lower (s : str) : str :=
  if forallb (fun c => (c <? 128)%N) s then map lower_ascii s
  else lower_unicode s.

(** The split of [s.rsplit(sep, 1)] at the last [sep], when there is one. *)
Fixpoint split_last (sep : N) (s : str) : option (str * str) :=
  match s with
  | [] => None
  | c :: s' =>
      match split_last sep s' with
      | Some (stem, ext) => Some (c :: stem, ext)
      | None => if (c =? sep)%N then Some ([], s') else None
      end
  end.

(** [s.rsplit(sep, 1)] for a one-character separator. *)
Definition rsplit1 (sep : N) (s : str) : list str :=
  match split_last sep s with
  | Some (stem, ext) => [stem; ext]
  | None => [s]
  end.

(** [app.config['ALLOWED_EXTENSIONS']]. *)
Definition ALLOWED_EXTENSIONS : list str :=
  [lit "png"; lit "jpg"; lit "jpeg"; lit "pdf"].

(** The code point of ['.']. *)
Definition dot : N := 46%N.

(** [allowed_file(filename)] (lines 20-21); [None] stands for the
    [IndexError] that [[1]] raises on a list of one element. *)
Definition allowed_file (filename : str) : option bool :=
  if existsb (fun c => (c =? dot)%N) filename then
    match rsplit1 dot filename !! 1%nat with
    | Some ext => Some (bool_decide (lower ext ∈ ALLOWED_EXTENSIONS))
    | None => None
    end
  else Some false.

End Lower.

(** ** [report] ([report.py]) *)

(** The calls that the loop over the questions (lines 52-71) makes on
    [draw], in the order in which it makes them. *)
Inductive shape : Type :=
| rectangle (xy : rect) (outline : string) (width : Z)
| line (xy : rect) (fill : string) (width : Z).

Definition is_red (sh : shape) : Prop :=
  match sh with
  | rectangle _ colour _ | line _ colour _ => colour = "red"%string
  end.

(** The body of the inner loop, for one [(option, (x1, y1, x2, y2))] of
    [bubble_dict.items()]. *)
Definition option_shapes (student_ans correct_ans : value) (is_correct : bool)
    (item : str * rect) : list shape :=
  let '(option, (x1, y1, x2, y2)) := item in
  (if eqb correct_ans (PyStr option)
   then [rectangle (x1, y1, x2, y2) "green" 4] else [])
  ++ (if eqb student_ans (PyStr option) then
        if is_correct then [rectangle (x1, y1, x2, y2) "green" 4]
        else [rectangle (x1, y1, x2, y2) "red" 4;
              line (x1, y1, x2, y2) "red" 4;
              line (x1, y2, x2, y1) "red" 4]
      else []).

(** The body of the outer loop, for one [(q, bubble_dict)] of
    [coordinates.items()]; a dictionary is given by its items in insertion
    order. *)
Definition question_shapes (student_answers correct_answers : answers)
    (entry : Z * list (str * rect)) : list shape :=
  let '(q, bubble_dict) := entry in
  let student_ans := get student_answers q in
  let correct_ans := get correct_answers q in
  let is_correct := eqb student_ans correct_ans in
  flat_map (option_shapes student_ans correct_ans is_correct) bubble_dict.

Definition report_shapes (student_answers correct_answers : answers)
    (coordinates : list (Z * list (str * rect))) : list shape :=
  flat_map (question_shapes student_answers correct_answers) coordinates.

(** The items of the dictionaries that [detect_bubbles] fills, in the order
    in which it inserts them: the letters of a row from left to right, the
    questions from top to bottom. *)
Definition row_items (row_bubbles : list contour) : list (str * rect) :=
  map (fun ib : Z * contour => (chr (65 + ib.1), box_of ib.2))
      (enumerate (options row_bubbles)).

Definition coordinates_items (contours : list contour)
  : list (Z * list (str * rect)) :=
  map (fun ir : Z * list contour => (ir.1 + 1, row_items ir.2))
      (enumerate (rows_of contours)).

(** * Proofs *)

(** ** Facts about the built-ins *)

Section Builtins.
Context {A : Type}.

Lemma range_succ (a : Z) (n : nat) :
  range a (a + Z.of_nat (S n)) = range a (a + Z.of_nat n) ++ [a + Z.of_nat n].
Proof.
  unfold range.
  replace (a + Z.of_nat (S n) - a) with (Z.of_nat (S n)) by lia.
  replace (a + Z.of_nat n - a) with (Z.of_nat n) by lia.
  rewrite !Nat2Z.id, seq_S, map_app. reflexivity.
Qed.

Lemma range_empty (a b : Z) : b <= a -> range a b = [].
Proof.
  intros H. unfold range. replace (Z.to_nat (b - a)) with 0%nat by lia.
  reflexivity.
Qed.

Lemma range_length (a b : Z) : length (range a b) = Z.to_nat (b - a).
Proof. unfold range. rewrite length_map, length_seq. reflexivity. Qed.

Variable key : A -> Z.

Lemma insert_by_perm (a : A) (l : list A) : insert_by key a l ≡ₚ a :: l.
Proof.
  induction l as [|b l IH]; simpl; [done|].
  destruct (key a <=? key b); [done|].
  rewrite IH. apply Permutation_swap.
Qed.

Lemma sorted_perm (l : list A) : sorted key l ≡ₚ l.
Proof.
  induction l as [|a l IH]; simpl; [done|].
  rewrite insert_by_perm. by f_equiv.
Qed.

Lemma sorted_length (l : list A) : length (sorted key l) = length l.
Proof. apply Permutation_length, sorted_perm. Qed.

Lemma sorted_nil_iff (l : list A) : sorted key l = [] <-> l = [].
Proof.
  split; intros H.
  - apply Permutation_nil_r. rewrite <- H. symmetry. apply sorted_perm.
  - by subst.
Qed.

Lemma insert_by_ascending (a : A) (l : list A) :
  ascending key l -> ascending key (insert_by key a l).
Proof.
  induction l as [|b l IH]; simpl; [auto|].
  intros [Hb Hl]. destruct (key a <=? key b) eqn:E.
  - apply Z.leb_le in E. simpl. repeat split; auto.
    constructor; [done|]. eapply Forall_impl; [exact Hb|]. simpl. lia.
  - apply Z.leb_gt in E. simpl. split; [|auto].
    rewrite insert_by_perm. constructor; [lia|done].
Qed.

Lemma sorted_ascending (l : list A) : ascending key (sorted key l).
Proof.
  induction l as [|a l IH]; simpl; [done|]. by apply insert_by_ascending.
Qed.

End Builtins.

(** ** The filter loop *)

Lemma bubble_contours_acc (contours acc : list contour) :
  fold_left (fun acc cnt => if is_bubble cnt then acc ++ [cnt] else acc)
            contours acc
  = acc ++ List.filter is_bubble contours.
Proof.
  revert acc. induction contours as [|c cs IH]; intros acc; simpl.
  - by rewrite app_nil_r.
  - rewrite IH. destruct (is_bubble c); [|done]. by rewrite <- app_assoc.
Qed.

Lemma bubble_contours_filter (contours : list contour) :
  bubble_contours contours = List.filter is_bubble contours.
Proof. apply bubble_contours_acc. Qed.

Lemma Qlt_bool_iff (a b : Q) : Qlt_bool a b = true <-> (a < b)%Q.
Proof.
  unfold Qlt_bool. rewrite negb_true_iff. split; intros H.
  - apply Qnot_le_lt. intros Hle. apply Qle_bool_iff in Hle. congruence.
  - destruct (Qle_bool b a) eqn:E; [|done].
    apply Qle_bool_iff in E. exfalso. by apply (Qlt_not_le a b).
Qed.

Lemma is_bubble_iff (cnt : contour) :
  is_bubble cnt = true <->
  (500 < contourArea cnt /\ contourArea cnt < 5000)%Q /\
  (0.8 <= aspect_ratio cnt /\ aspect_ratio cnt <= 1.2)%Q.
Proof.
  unfold is_bubble.
  destruct (Qlt_bool 500 (contourArea cnt) && Qlt_bool (contourArea cnt) 5000)
    eqn:E.
  - apply andb_true_iff in E as [E1 E2].
    apply Qlt_bool_iff in E1, E2.
    rewrite andb_true_iff, !Qle_bool_iff. tauto.
  - split; [done|]. intros [[H1 H2] _].
    apply Qlt_bool_iff in H1, H2. rewrite H1, H2 in E. done.
Qed.

(** ** The row-grouping loop *)

Lemma group_loop_rows_from (l : list contour) (st : grouping) :
  let st' := fold_left group_step l st in
  g_rows st' ++ [current_row st']
  = g_rows st ++ rows_from (current_y st) (current_row st) l.
Proof.
  revert st. induction l as [|b l IH]; intros st; simpl; [done|].
  rewrite IH. unfold group_step.
  destruct (Z.abs (top b - current_y st) <=? y_tolerance); simpl; [done|].
  by rewrite <- app_assoc.
Qed.

Lemma group_rows_rows_from (first : contour) (rest : list contour) :
  group_rows first rest = rows_from (top first) [first] rest.
Proof. unfold group_rows. by rewrite group_loop_rows_from. Qed.

Lemma rows_from_concat (l : list contour) (a : Z) (cur : list contour) :
  concat (rows_from a cur l) = cur ++ l.
Proof.
  revert a cur. induction l as [|b l IH]; intros a cur; simpl.
  - done.
  - destruct (Z.abs (top b - a) <=? y_tolerance); simpl; rewrite IH; [|done].
    by rewrite <- app_assoc.
Qed.

Lemma rows_from_head (l : list contour) (a : Z) (c0 : contour)
    (cur : list contour) :
  exists r rs, rows_from a (c0 :: cur) l = (c0 :: r) :: rs.
Proof.
  revert a cur. induction l as [|b l IH]; intros a cur; simpl; [eauto|].
  destruct (Z.abs (top b - a) <=? y_tolerance); [|eauto].
  apply (IH a (cur ++ [b])).
Qed.

Lemma rows_from_ok (l : list contour) (c0 : contour) (cur : list contour) :
  row_ok (c0 :: cur) ->
  Forall row_ok (rows_from (top c0) (c0 :: cur) l)
  /\ breaks (rows_from (top c0) (c0 :: cur) l).
Proof.
  revert c0 cur. induction l as [|b l IH]; intros c0 cur Hcur; simpl.
  - split; [by constructor|done].
  - destruct (Z.abs (top b - top c0) <=? y_tolerance) eqn:E.
    + apply Z.leb_le in E. apply (IH c0 (cur ++ [b])).
      simpl in *. apply Forall_app. split; [done|].
      constructor; [exact E|constructor].
    + apply Z.leb_gt in E.
      destruct (IH b [] (List.Forall_nil _)) as [Hok Hbr].
      split; [by constructor|].
      destruct (rows_from_head l (top b) b []) as (r & rs & Hr).
      simpl in Hr. rewrite Hr in *. simpl. split; [exact E|exact Hbr].
Qed.

Lemma rows_from_unique (l : list contour) (c0 : contour)
    (cur p : list contour) (rs : list (list contour)) :
  concat (((c0 :: cur) ++ p) :: rs) = (c0 :: cur) ++ l ->
  Forall row_ok (((c0 :: cur) ++ p) :: rs) ->
  breaks (((c0 :: cur) ++ p) :: rs) ->
  ((c0 :: cur) ++ p) :: rs = rows_from (top c0) (c0 :: cur) l.
Proof.
  revert c0 cur p rs.
  induction l as [|b l IH]; intros c0 cur p rs Hcat Hok Hbr.
  - simpl in *. injection Hcat as Hcat.
    rewrite <- app_assoc in Hcat.
    apply app_inv_head in Hcat. apply app_eq_nil in Hcat as [-> Hrs].
    rewrite app_nil_r. f_equal.
    destruct rs as [|r rs]; [done|].
    apply Forall_cons in Hok as [_ Hok]. apply Forall_cons in Hok as [Hr _].
    simpl in Hrs. apply app_eq_nil in Hrs as [-> _]. done.
  - simpl in Hcat. injection Hcat as Hcat.
    rewrite <- app_assoc in Hcat. apply app_inv_head in Hcat.
    destruct p as [|b' p].
    + (* the first row stops here: [b] opens the next one *)
      simpl in Hcat. destruct rs as [|r rs]; [done|].
      pose proof Hok as Hok'.
      apply Forall_cons in Hok' as [_ Hok'].
      pose proof Hok' as Hok''. apply Forall_cons in Hok'' as [Hr _].
      destruct r as [|b' r]; [done|].
      simpl in Hcat. injection Hcat as -> Hcat.
      rewrite app_nil_r in *.
      simpl in Hbr. destruct Hbr as [Hfar Hbr].
      simpl. destruct (Z.abs (top b - top c0) <=? y_tolerance) eqn:E.
      { apply Z.leb_le in E. unfold y_tolerance in E. lia. }
      f_equal. apply (IH b [] r rs); simpl; [by f_equal|done|done].
    + (* [b] is in the first row *)
      simpl in Hcat. injection Hcat as -> Hcat.
      pose proof Hok as Hok'. apply Forall_cons in Hok' as [H0 _].
      simpl in H0. apply Forall_app in H0 as [_ H0].
      apply Forall_cons in H0 as [Hb _].
      simpl. destruct (Z.abs (top b - top c0) <=? y_tolerance) eqn:E.
      2:{ apply Z.leb_gt in E. unfold y_tolerance in E. lia. }
      assert (Heq : (c0 :: cur) ++ b :: p = (c0 :: cur ++ [b]) ++ p)
        by (simpl; by rewrite <- app_assoc).
      rewrite Heq in Hok, Hbr.
      change (c0 :: cur ++ b :: p) with ((c0 :: cur) ++ b :: p).
      rewrite Heq.
      apply (IH c0 (cur ++ [b]) p rs); [|done|done].
      simpl. f_equal. rewrite <- !app_assoc. simpl. by rewrite Hcat.
Qed.

Lemma ascending_app_r {A} (key : A -> Z) (l1 l2 : list A) :
  ascending key (l1 ++ l2) -> ascending key l2.
Proof. induction l1 as [|a l1 IH]; simpl; [done|]. intros [_ H]. auto. Qed.

Lemma grouping_top_to_bottom (rows : list (list contour)) :
  ascending top (concat rows) -> Forall row_ok rows -> breaks rows ->
  Forall row_below_anchor rows /\ top_to_bottom rows.
Proof.
  induction rows as [|r1 rows IH]; intros Hasc Hok Hbr; [by split|].
  apply Forall_cons in Hok as [Hr1 Hok].
  destruct r1 as [|a1 r1]; [done|].
  simpl in Hasc. destruct Hasc as [Ha1 Hasc].
  apply Forall_app in Ha1 as [Ha1 Ha1'].
  assert (Hrest : ascending top (concat rows)).
  { change (ascending top (r1 ++ concat rows)) in Hasc.
    by apply ascending_app_r in Hasc. }
  assert (Hbr' : breaks rows) by (destruct rows; [done|apply Hbr]).
  destruct (IH Hrest Hok Hbr') as [IH1 IH2].
  split.
  - constructor; [|done]. simpl in *.
    apply Forall_forall. intros b Hb.
    rewrite Forall_forall in Hr1, Ha1.
    specialize (Hr1 b Hb). specialize (Ha1 b Hb). simpl in *. lia.
  - destruct rows as [|r2 rows]; [done|].
    destruct Hbr as [Hfar _]. split; [|done].
    destruct r2 as [|a2 r2]; [done|]. simpl in *.
    apply Forall_cons in Ha1' as [Ha2 _]. lia.
Qed.

Lemma rows_of_grouping (contours : list contour) :
  row_grouping (sorted top (bubble_contours contours)) (rows_of contours).
Proof.
  unfold rows_of, row_grouping.
  destruct (sorted top (bubble_contours contours)) as [|first rest]; [done|].
  rewrite group_rows_rows_from. split; [apply rows_from_concat|].
  apply (rows_from_ok rest first []). constructor.
Qed.

Lemma rows_of_unique (contours : list contour) (rows : list (list contour)) :
  row_grouping (sorted top (bubble_contours contours)) rows ->
  rows = rows_of contours.
Proof.
  unfold rows_of, row_grouping. intros (Hcat & Hok & Hbr).
  destruct (sorted top (bubble_contours contours)) as [|first rest].
  - destruct rows as [|r rows]; [done|].
    apply Forall_cons in Hok as [Hr _]. destruct r; [done|discriminate].
  - rewrite group_rows_rows_from.
    destruct rows as [|r rows]; [done|].
    pose proof Hok as Hok'. apply Forall_cons in Hok' as [Hr _].
    destruct r as [|c0 p]; [done|].
    simpl in Hcat. injection Hcat as -> Hcat.
    apply (rows_from_unique rest first [] p rows); simpl; [by f_equal|done|done].
Qed.

Lemma rows_of_nil_iff (contours : list contour) :
  rows_of contours = [] <-> bubble_contours contours = [].
Proof.
  unfold rows_of. rewrite <- (sorted_nil_iff top).
  destruct (sorted top (bubble_contours contours)) as [|first rest]; [done|].
  rewrite group_rows_rows_from.
  destruct (rows_from_head rest (top first) first []) as (r & rs & ->). done.
Qed.

(** ** The loop over the bubbles of a row *)

Lemma chr_inj (a b : Z) : 0 <= a -> 0 <= b -> chr a = chr b -> a = b.
Proof. unfold chr. intros Ha Hb [= H]. lia. Qed.

Lemma countNonZero_nonneg (m : image) : 0 <= countNonZero m.
Proof. unfold countNonZero. lia. Qed.

Lemma filled_of_nonneg (thresh : image) (b : contour) : 0 <= filled_of thresh b.
Proof.
  unfold filled_of. destruct (boundingRect b) as [[[x y] w] h].
  apply countNonZero_nonneg.
Qed.


Lemma scan_loop_cons thresh i b l st :
  scan_loop thresh i (b :: l) st
  = scan_loop thresh (i + 1) l (scan_step thresh st (i, b)).
Proof. reflexivity. Qed.

(** The running maximum after the loop: either no bubble exceeded the
    maximum at entry and nothing changed, or the loop ends on the first
    position of the largest fill. *)
Lemma scan_loop_max thresh (l : list contour) (i : Z) (st : scan) :
  let st' := scan_loop thresh i l st in
  let fs := map (filled_of thresh) l in
  (Forall (fun f => f <= max_filled_pixels st) fs
   /\ max_filled_pixels st' = max_filled_pixels st
   /\ selected st' = selected st)
  \/ (exists k, first_max fs k (max_filled_pixels st')
      /\ max_filled_pixels st < max_filled_pixels st'
      /\ selected st' = PyStr (chr (65 + (i + Z.of_nat k)))).
Proof.
  revert i st. induction l as [|b l IH]; intros i st; simpl.
  - left. by repeat split.
  - rewrite scan_loop_cons.
    specialize (IH (i + 1) (scan_step thresh st (i, b))).
    unfold scan_step in IH |- *.
    set (fb := filled_of thresh b) in *.
    destruct (max_filled_pixels st <? fb) eqn:E; simpl in IH.
    + apply Z.ltb_lt in E.
      destruct IH as [(Hall & Hm & Hs) | (k & (Hk & Hle & Hlt) & Hgt & Hs)].
      * right. exists 0%nat. rewrite Hm, Hs.
        split; [|split; [done|do 3 f_equal; lia]].
        split; [done|]. split; [|intros; lia].
        intros [|j] f Hj; simpl in Hj; [injection Hj; lia|].
        rewrite Forall_forall in Hall. apply Hall.
        eapply list_elem_of_lookup_2. exact Hj.
      * right. exists (S k). rewrite Hs.
        split; [|split; [lia|do 3 f_equal; lia]].
        split; [done|]. split.
        -- intros [|j] f Hj; simpl in Hj; [injection Hj; lia|eauto].
        -- intros [|j] f Hjk Hj; simpl in Hj; [injection Hj; lia|].
           eapply Hlt; [|exact Hj]. lia.
    + apply Z.ltb_ge in E.
      destruct IH as [(Hall & Hm & Hs) | (k & (Hk & Hle & Hlt) & Hgt & Hs)].
      * left. by repeat split; [constructor|..].
      * right. exists (S k). rewrite Hs.
        split; [|split; [lia|do 3 f_equal; lia]].
        split; [done|]. split.
        -- intros [|j] f Hj; simpl in Hj; [injection Hj; lia|eauto].
        -- intros [|j] f Hjk Hj; simpl in Hj; [injection Hj; lia|].
           eapply Hlt; [|exact Hj]. lia.
Qed.

Lemma scan_step_coords thresh st i b :
  coords_per_row (scan_step thresh st (i, b))
  = <[chr (65 + i) := box_of b]> (coords_per_row st).
Proof. unfold scan_step. by destruct (_ <? _). Qed.

(** Letters not assigned in the loop are left alone in [coords_per_row]. *)
Lemma scan_loop_coords_other thresh (l : list contour) (i : Z) (st : scan)
    (s : str) :
  (forall k, (k < length l)%nat -> s <> chr (65 + (i + Z.of_nat k))) ->
  coords_per_row (scan_loop thresh i l st) !! s = coords_per_row st !! s.
Proof.
  revert i st. induction l as [|b l IH]; intros i st Hs; [done|].
  rewrite scan_loop_cons, IH.
  - rewrite scan_step_coords, lookup_insert_ne; [done|].
    intros Heq. apply (Hs 0%nat); [simpl; lia|].
    rewrite <- Heq. do 2 f_equal. lia.
  - intros k Hk. replace (i + 1 + Z.of_nat k) with (i + Z.of_nat (S k)) by lia.
    apply Hs. simpl. lia.
Qed.

(** Every bubble of the row has its rectangle under its letter. *)
Lemma scan_loop_coords thresh (l : list contour) (i : Z) (st : scan)
    (k : nat) (b : contour) :
  0 <= i -> l !! k = Some b ->
  coords_per_row (scan_loop thresh i l st) !! chr (65 + (i + Z.of_nat k))
  = Some (box_of b).
Proof.
  revert i st k. induction l as [|b' l IH]; intros i st k Hi Hk; [done|].
  rewrite scan_loop_cons. destruct k as [|k]; simpl in Hk.
  - injection Hk as ->. rewrite scan_loop_coords_other.
    + rewrite scan_step_coords. replace (i + Z.of_nat 0) with i by lia.
      apply lookup_insert_eq.
    + intros k _ Heq. apply chr_inj in Heq; lia.
  - replace (i + Z.of_nat (S k)) with (i + 1 + Z.of_nat k) by lia.
    apply IH; [lia|done].
Qed.

Lemma scan_row_loop thresh row :
  scan_row thresh row = scan_loop thresh 0 (options row) (Scan 0 PyNone ∅).
Proof. reflexivity. Qed.

Lemma fills_nonneg thresh row (j : nat) (f : Z) :
  fills thresh row !! j = Some f -> 0 <= f.
Proof.
  unfold fills. rewrite list_lookup_fmap.
  destruct (options row !! j); [|done]. intros [= <-].
  apply filled_of_nonneg.
Qed.

(** Outcome of the scan of one row. *)
Lemma scan_row_max thresh row :
  let st := scan_row thresh row in
  (Forall (fun f => f = 0) (fills thresh row)
   /\ max_filled_pixels st = 0 /\ selected st = PyNone)
  \/ (exists k, first_max (fills thresh row) k (max_filled_pixels st)
      /\ 0 < max_filled_pixels st
      /\ selected st = PyStr (chr (65 + Z.of_nat k))).
Proof.
  simpl. rewrite scan_row_loop.
  destruct (scan_loop_max thresh (options row) 0 (Scan 0 PyNone ∅))
    as [(Hall & Hm & Hs) | (k & Hk & Hgt & Hs)].
  - left. split; [|done].
    apply Forall_lookup. intros j f Hj.
    rewrite Forall_lookup in Hall. specialize (Hall j f Hj). simpl in Hall.
    pose proof (fills_nonneg _ _ _ _ Hj). lia.
  - right. exists k. by rewrite Z.add_0_l in Hs.
Qed.

Lemma scan_row_coords thresh row (k : nat) (b : contour) :
  options row !! k = Some b ->
  coords_per_row (scan_row thresh row) !! chr (65 + Z.of_nat k)
  = Some (box_of b).
Proof.
  intros Hk. rewrite scan_row_loop.
  rewrite <- (Z.add_0_l (Z.of_nat k)). by apply scan_loop_coords.
Qed.

Lemma scan_loop_coords_inv thresh (l : list contour) (i : Z) (st : scan)
    (s : str) :
  is_Some (coords_per_row (scan_loop thresh i l st) !! s) ->
  is_Some (coords_per_row st !! s)
  \/ exists k, (k < length l)%nat /\ s = chr (65 + (i + Z.of_nat k)).
Proof.
  revert i st. induction l as [|b l IH]; intros i st Hs; [by left|].
  rewrite scan_loop_cons in Hs. apply IH in Hs as [Hs|(k & Hk & ->)].
  - rewrite scan_step_coords in Hs.
    destruct (decide (chr (65 + i) = s)) as [<-|Hne].
    + right. exists 0%nat. split; [simpl; lia|]. do 2 f_equal. lia.
    + left. by rewrite lookup_insert_ne in Hs.
  - right. exists (S k). split; [simpl; lia|]. do 2 f_equal. lia.
Qed.

Lemma scan_row_coords_dom thresh row (s : str) :
  s ∈ dom (coords_per_row (scan_row thresh row)) <->
  exists k, (k < length row)%nat /\ s = chr (65 + Z.of_nat k).
Proof.
  rewrite elem_of_dom. split.
  - intros Hs. rewrite scan_row_loop in Hs.
    apply scan_loop_coords_inv in Hs as [Hs|(k & Hk & ->)].
    + simpl in Hs. rewrite lookup_empty in Hs. by destruct Hs.
    + exists k. unfold options in Hk. rewrite sorted_length in Hk.
      by rewrite Z.add_0_l.
  - intros (k & Hk & ->).
    destruct (lookup_lt_is_Some_2 (options row) k) as [b Hb].
    { unfold options. by rewrite sorted_length. }
    rewrite (scan_row_coords _ _ _ _ Hb). eauto.
Qed.

(** ** The loop over the rows *)

Lemma rows_loop_cons (thresh : image) i row rows acc :
  rows_loop thresh i (row :: rows) acc
  = rows_loop thresh (i + 1) rows (row_step thresh acc (i, row)).
Proof. reflexivity. Qed.

(** Question numbers outside [i+1 .. i+len(rows)] are not written. *)
Lemma rows_loop_other (thresh : image) (rows : list (list contour)) (i : Z)
    (acc : answers * coords) (q : Z) :
  ~ (i + 1 <= q <= i + Z.of_nat (length rows)) ->
  (rows_loop thresh i rows acc).1 !! q = acc.1 !! q
  /\ (rows_loop thresh i rows acc).2 !! q = acc.2 !! q.
Proof.
  revert i acc. induction rows as [|row rows IH]; intros i acc Hq; [done|].
  rewrite rows_loop_cons. simpl length in Hq.
  destruct (IH (i + 1) (row_step thresh acc (i, row))) as [H1 H2]; [lia|].
  rewrite H1, H2. destruct acc as [sa co]. simpl.
  rewrite !lookup_insert_ne by lia. done.
Qed.

(** Row [k] (counting from 0) is written at question number [i + k + 1]. *)
Lemma rows_loop_lookup (thresh : image) (rows : list (list contour)) (i : Z)
    (acc : answers * coords) (k : nat) (row : list contour) :
  rows !! k = Some row ->
  (rows_loop thresh i rows acc).1 !! (i + Z.of_nat k + 1)
  = Some (answer_of (scan_row thresh row))
  /\ (rows_loop thresh i rows acc).2 !! (i + Z.of_nat k + 1)
     = Some (coords_per_row (scan_row thresh row)).
Proof.
  revert i acc k. induction rows as [|r rows IH]; intros i acc k Hk; [done|].
  rewrite rows_loop_cons. destruct k as [|k]; simpl in Hk.
  - injection Hk as ->.
    replace (i + Z.of_nat 0 + 1) with (i + 1) by lia.
    destruct (rows_loop_other thresh rows (i + 1)
                (row_step thresh acc (i, row)) (i + 1))
      as [H1 H2]; [lia|].
    rewrite H1, H2. destruct acc as [sa co]. unfold row_step. simpl.
    by rewrite !lookup_insert_eq.
  - replace (i + Z.of_nat (S k) + 1) with (i + 1 + Z.of_nat k + 1) by lia.
    by apply IH.
Qed.

(** The normal exit of [detect_bubbles]: taken exactly when a bubble
    candidate exists; the dictionaries hold one entry per row. *)
Lemma detect_bubbles_rows (thresh : image) (contours : list contour) :
  bubble_contours contours <> [] ->
  exists sa co,
    detect_bubbles thresh contours
    = Tuple3 sa co (Z.of_nat (length (rows_of contours)))
    /\ (forall (k : nat) row, rows_of contours !! k = Some row ->
          sa !! (Z.of_nat k + 1) = Some (answer_of (scan_row thresh row))
          /\ co !! (Z.of_nat k + 1)
             = Some (coords_per_row (scan_row thresh row)))
    /\ (forall q, ~ (1 <= q <= Z.of_nat (length (rows_of contours))) ->
          sa !! q = None /\ co !! q = None).
Proof.
  intros Hne. unfold detect_bubbles, rows_of.
  destruct (sorted top (bubble_contours contours)) as [|first rest] eqn:E.
  { apply sorted_nil_iff in E. done. }
  change (fold_left (row_step thresh) (Py.enumerate (group_rows first rest)))
    with (rows_loop thresh 0 (group_rows first rest)).
  destruct (rows_loop thresh 0 (group_rows first rest) (∅, ∅))
    as [sa co] eqn:El.
  exists sa, co. split; [done|]. split.
  - intros k row Hk.
    pose proof (rows_loop_lookup thresh _ 0 (∅, ∅) k row Hk) as H.
    rewrite El in H. simpl in H. by rewrite Z.add_0_l in H.
  - intros q Hq.
    pose proof (rows_loop_other thresh (group_rows first rest) 0 (∅, ∅) q) as H.
    rewrite El in H. simpl in H. rewrite !lookup_empty in H. apply H. lia.
Qed.

Lemma detect_bubbles_early (thresh : image) (contours : list contour) :
  bubble_contours contours = [] ->
  detect_bubbles thresh contours = Tuple2 ∅ ∅.
Proof. intros H. unfold detect_bubbles. by rewrite H. Qed.

(** The normal exit read backwards: a returned triple comes with its rows. *)
Lemma detect_bubbles_tuple3_inv (thresh : image) (contours : list contour)
    (sa : answers) (co : coords) (n : Z) :
  detect_bubbles thresh contours = Tuple3 sa co n ->
  bubble_contours contours <> []
  /\ n = Z.of_nat (length (rows_of contours))
  /\ (forall (k : nat) row, rows_of contours !! k = Some row ->
        sa !! (Z.of_nat k + 1) = Some (answer_of (scan_row thresh row))
        /\ co !! (Z.of_nat k + 1)
           = Some (coords_per_row (scan_row thresh row)))
  /\ (forall q, ~ (1 <= q <= n) -> sa !! q = None /\ co !! q = None).
Proof.
  intros Hd.
  assert (Hne : bubble_contours contours <> []).
  { intros H. rewrite (detect_bubbles_early _ _ H) in Hd. discriminate. }
  destruct (detect_bubbles_rows thresh contours Hne)
    as (sa' & co' & Hd' & Hrows & Hout).
  rewrite Hd' in Hd. injection Hd as -> -> <-. done.
Qed.

(** ** The scoring loop *)

Lemma tally_snoc sa ca v qs q :
  tally sa ca v (qs ++ [q])
  = tally sa ca v qs + (if decide (verdict_of sa ca q = v) then 1 else 0).
Proof.
  unfold tally. rewrite filter_app, length_app, filter_cons, filter_nil.
  destruct (decide (verdict_of sa ca q = v)); simpl; lia.
Qed.

Lemma grade_step_verdict sa ca c q :
  grade_step sa ca c q =
  match verdict_of sa ca q with
  | Correct =>
      Counters (c_score c + 1) (c_correct c + 1) (c_incorrect c)
               (c_unanswered c)
  | Unanswered =>
      Counters (c_score c) (c_correct c) (c_incorrect c) (c_unanswered c + 1)
  | Incorrect =>
      Counters (c_score c) (c_correct c) (c_incorrect c + 1) (c_unanswered c)
  end.
Proof. unfold grade_step, verdict_of. by repeat destruct (eqb _ _). Qed.

(** The counters after the loop are the tallies of the three verdicts over
    the questions [1..total_questions]. *)
Lemma grade_loop_tally sa ca (n : Z) :
  let c := grade_loop sa ca n in
  let qs := range 1 (n + 1) in
  c_score c = tally sa ca Correct qs
  /\ c_correct c = tally sa ca Correct qs
  /\ c_incorrect c = tally sa ca Incorrect qs
  /\ c_unanswered c = tally sa ca Unanswered qs.
Proof.
  unfold grade_loop. destruct (Z.le_gt_cases n 0) as [Hn|Hn].
  { rewrite range_empty by lia. done. }
  replace (n + 1) with (1 + Z.of_nat (Z.to_nat n)) by lia.
  induction (Z.to_nat n) as [|m IH].
  - rewrite range_empty by lia. done.
  - rewrite range_succ, fold_left_app. simpl.
    destruct IH as (H1 & H2 & H3 & H4).
    rewrite grade_step_verdict, !tally_snoc.
    destruct (verdict_of sa ca (1 + Z.of_nat m)); simpl;
      repeat case_decide; try done; repeat split; lia.
Qed.

Lemma tally_total sa ca (qs : list Z) :
  tally sa ca Correct qs + tally sa ca Incorrect qs
  + tally sa ca Unanswered qs = Z.of_nat (length qs).
Proof.
  induction qs as [|q qs IH] using rev_ind; [done|].
  rewrite !tally_snoc, length_app. simpl.
  destruct (verdict_of sa ca q); repeat case_decide; try done; lia.
Qed.

Lemma max_fill_upper (fs : list Z) (j : nat) (f : Z) :
  fs !! j = Some f -> f <= max_fill fs.
Proof.
  revert j. induction fs as [|g fs IH]; intros [|j] Hj; simpl in *; try done.
  - injection Hj as ->. lia.
  - specialize (IH j Hj). lia.
Qed.

Lemma max_fill_attained (fs : list Z) :
  max_fill fs = 0 \/ exists j, fs !! j = Some (max_fill fs).
Proof.
  induction fs as [|g fs IH]; simpl; [by left|].
  destruct (Z.max_spec g (max_fill fs)) as [[_ ->]|[_ ->]].
  - destruct IH as [IH|[j IH]]; [by left|]. right. by exists (S j).
  - right. by exists 0%nat.
Qed.

Lemma scan_row_max_fill (thresh : image) (row : list contour) :
  max_filled_pixels (scan_row thresh row) = max_fill (fills thresh row).
Proof.
  destruct (scan_row_max thresh row)
    as [(Hall & Hm & _) | (k & (Hk & Hle & _) & Hpos & _)].
  - rewrite Hm. destruct (max_fill_attained (fills thresh row)) as [->|[j Hj]];
      [done|].
    rewrite Forall_lookup in Hall. symmetry. exact (Hall _ _ Hj).
  - pose proof (max_fill_upper _ _ _ Hk).
    destruct (max_fill_attained (fills thresh row)) as [H0|[j Hj]]; [lia|].
    specialize (Hle _ _ Hj). lia.
Qed.

(** ** Grading: success and failure *)


Lemma grade_nonzero (sa ca : answers) (n : Z) :
  n <> 0 ->
  grade sa ca n =
  let c := grade_loop sa ca n in
  inr (Graded ca n (c_score c)
         ((inject_Z (c_score c) / inject_Z n) * 100)%Q
         (PrimFloat.mul (PrimFloat.div (float_of_int (c_score c))
                                       (float_of_int n))
                        (float_of_int 100))
         (c_correct c) (c_incorrect c) (c_unanswered c)).
Proof.
  intros Hn. unfold grade. destruct (n =? 0) eqn:E; [|done].
  apply Z.eqb_eq in E. done.
Qed.

Lemma process_sheet_blank_key (student key : sheet) :
  bubble_contours (contours student) <> [] ->
  bubble_contours (contours key) = [] ->
  process_sheet student (Some key) = inl ValueError.
Proof.
  intros Hs Hk. unfold process_sheet.
  destruct (detect_bubbles_rows (thresh student) _ Hs) as (sa & co & -> & _).
  simpl. by rewrite (detect_bubbles_early _ _ Hk).
Qed.

(** With candidates on both sheets the pipeline returns a graded result. *)
Lemma process_sheet_graded (student key : sheet) :
  bubble_contours (contours student) <> [] ->
  bubble_contours (contours key) <> [] ->
  exists r g,
    process_sheet student (Some key) = inr r
    /\ grading r = Some g
    /\ total_questions g = Z.of_nat (length (rows_of (contours key))).
Proof.
  intros Hs Hk. unfold process_sheet.
  destruct (detect_bubbles_rows (thresh student) _ Hs) as (sa & co & -> & _).
  destruct (detect_bubbles_rows (thresh key) _ Hk) as (ka & kc & -> & _).
  simpl. rewrite grade_nonzero.
  - simpl. eexists _, _. split; [reflexivity|]. split; reflexivity.
  - destruct (rows_of (contours key)) eqn:E; [|simpl; lia].
    apply rows_of_nil_iff in E. done.
Qed.

(** ** Properties of the pipeline *)

(** C1: when no contour passes the filter, [detect_bubbles] leaves through
    its early exit, which returns the pair of two empty dictionaries and no
    question count; [process_sheet] unpacks three values from it, so the
    pipeline stops with [ValueError] on such a student sheet. *)
Theorem C1_no_candidate_aborts_pipeline (thresh : image)
    (contours : list contour) (correct : option sheet) :
  bubble_contours contours = [] ->
  detect_bubbles thresh contours = Tuple2 ∅ ∅
  /\ (forall n, detect_bubbles thresh contours <> Tuple3 ∅ ∅ n)
  /\ process_sheet (Sheet thresh contours) correct = inl ValueError.
Proof.
  intros H. pose proof (detect_bubbles_early thresh contours H) as E.
  split; [exact E|]. split.
  - intros n. rewrite E. discriminate.
  - unfold process_sheet. simpl. by rewrite E.
Qed.

Lemma C1_blank_sheet_witness :
  bubble_contours (contours blank_sheet) = []
  /\ process_sheet blank_sheet (Some example_sheet) = inl ValueError.
Proof.
  split; [reflexivity|].
  apply (C1_no_candidate_aborts_pipeline blank [] (Some example_sheet)).
  reflexivity.
Defined.



(** C3 as stated fails at the lower bound: a contour of area exactly 500
    and a square bounding box meets the inclusive bounds and is dropped. *)
Lemma C3_area_500_dropped :
  edge_blob ∈ [edge_blob]
  /\ (500 <= contourArea edge_blob <= 5000)%Q
  /\ (0.8 <= aspect_ratio edge_blob <= 1.2)%Q
  /\ edge_blob ∉ bubble_contours [edge_blob].
Proof.
  split; [apply list_elem_of_here|].
  split; [split; discriminate|]. split; [split; discriminate|].
  change (bubble_contours [edge_blob]) with (@nil contour).
  apply not_elem_of_nil.
Qed.

(** C3, amended: a contour is kept as a bubble candidate exactly when its
    contour area lies strictly between 500 and 5000 and the aspect ratio of
    its bounding box lies in [0.8, 1.2], bounds included; the candidates keep
    the order of the contours. *)
Theorem C3_candidate_filter (contours : list contour) (cnt : contour) :
  (cnt ∈ bubble_contours contours <->
   cnt ∈ contours
   /\ (500 < contourArea cnt /\ contourArea cnt < 5000)%Q
   /\ (0.8 <= aspect_ratio cnt <= 1.2)%Q)
  /\ bubble_contours contours = List.filter is_bubble contours.
Proof.
  split; [|apply bubble_contours_filter].
  rewrite bubble_contours_filter, !list_elem_of_In, filter_In, is_bubble_iff.
  tauto.
Qed.

(** C4: the rows built from the Y-sorted candidates are the one way of
    cutting that list into consecutive rows in which every bubble is within
    20 of the Y of the row's first bubble (its anchor) and each row's first
    bubble is more than 20 away from the anchor of the row before; the
    returned question count is the number of these rows, and row [k]
    (counted from 0, top to bottom) is recorded as question [k + 1]. *)
Theorem C4_row_grouping (thresh : image) (contours : list contour) :
  bubble_contours contours <> [] ->
  let sorted_bubbles := sorted top (bubble_contours contours) in
  exists sa co rows,
    detect_bubbles thresh contours = Tuple3 sa co (Z.of_nat (length rows))
    /\ sorted_bubbles ≡ₚ bubble_contours contours
    /\ ascending top sorted_bubbles
    /\ row_grouping sorted_bubbles rows
    /\ (forall rows', row_grouping sorted_bubbles rows' -> rows' = rows)
    /\ Forall row_below_anchor rows
    /\ top_to_bottom rows
    /\ (forall (k : nat) row, rows !! k = Some row ->
          sa !! (Z.of_nat k + 1) = Some (answer_of (scan_row thresh row))
          /\ co !! (Z.of_nat k + 1)
             = Some (coords_per_row (scan_row thresh row))).
Proof.
  intros Hne sorted_bubbles.
  destruct (detect_bubbles_rows thresh contours Hne)
    as (sa & co & Hd & Hrows & _).
  exists sa, co, (rows_of contours).
  pose proof (rows_of_grouping contours) as Hg.
  pose proof (sorted_ascending top (bubble_contours contours)) as Hasc.
  split; [exact Hd|]. split; [apply sorted_perm|]. split; [exact Hasc|].
  split; [exact Hg|]. split; [apply rows_of_unique|].
  destruct Hg as (Hcat & Hok & Hbr).
  rewrite <- Hcat in Hasc.
  destruct (grouping_top_to_bottom _ Hasc Hok Hbr) as [H1 H2].
  split; [exact H1|]. split; [exact H2|]. exact Hrows.
Qed.

Lemma C4_example_witness :
  bubble_contours example_contours <> []
  /\ exists sa co, detect_bubbles (inked 1) example_contours = Tuple3 sa co 2.
Proof.
  assert (Hne : bubble_contours example_contours <> []) by discriminate.
  split; [exact Hne|].
  destruct (C4_row_grouping (inked 1) example_contours Hne)
    as (sa & co & rows & Hd & _ & _ & Hg & Huniq & _).
  exists sa, co.
  rewrite <- (Huniq _ (rows_of_grouping example_contours)) in Hd. exact Hd.
Defined.

(** C5: for every detected row, with [m] the largest fill among its
    bubbles: if [m <= 50] the question is recorded as "Unanswered", and if
    [m > 50] the letter of the winning bubble (the first one with fill [m])
    is recorded. *)
Theorem C5_fill_threshold (thresh : image) (contours : list contour)
    (k : nat) (row : list contour) :
  rows_of contours !! k = Some row ->
  let m := max_fill (fills thresh row) in
  exists sa co n,
    detect_bubbles thresh contours = Tuple3 sa co n
    /\ (m <= 50 -> sa !! (Z.of_nat k + 1) = Some (PyStr (lit "Unanswered")))
    /\ (50 < m ->
        exists w, first_max (fills thresh row) w m
                  /\ sa !! (Z.of_nat k + 1)
                     = Some (PyStr (chr (65 + Z.of_nat w)))).
Proof.
  intros Hk m.
  assert (Hne : bubble_contours contours <> []).
  { intros H. apply rows_of_nil_iff in H. by rewrite H in Hk. }
  destruct (detect_bubbles_rows thresh contours Hne)
    as (sa & co & Hd & Hrows & _).
  destruct (Hrows k row Hk) as [Hsa _].
  exists sa, co, (Z.of_nat (length (rows_of contours))).
  split; [exact Hd|]. rewrite Hsa. unfold answer_of.
  rewrite scan_row_max_fill. fold m. split; intros Hm.
  - destruct (50 <? m) eqn:E; [apply Z.ltb_lt in E; lia|done].
  - destruct (50 <? m) eqn:E; [|apply Z.ltb_ge in E; lia].
    destruct (scan_row_max thresh row)
      as [(_ & H0 & _) | (w & Hw & _ & Hs)].
    + rewrite scan_row_max_fill in H0. fold m in H0. lia.
    + rewrite scan_row_max_fill in Hw. exists w. by rewrite Hs.
Qed.

(** Exactly 50 filled pixels: unanswered. *)
Lemma C5_boundary_50_witness :
  rows_of example_contours !! 0%nat
  = Some [blob 600 10 10; blob 600 50 12]
  /\ fills (inked 0) [blob 600 10 10; blob 600 50 12] = [50; 0]
  /\ exists sa co n,
       detect_bubbles (inked 0) example_contours = Tuple3 sa co n
       /\ sa !! 1 = Some (PyStr (lit "Unanswered")).
Proof.
  split; [reflexivity|]. split; [reflexivity|].
  destruct (C5_fill_threshold (inked 0) example_contours 0
              [blob 600 10 10; blob 600 50 12] eq_refl)
    as (sa & co & n & Hd & Hle & _).
  exists sa, co, n. split; [exact Hd|]. apply Hle. discriminate.
Defined.

(** 51 filled pixels and no stronger competitor: selected. *)
Example fill_51_selected :
  fills (inked 1) [blob 600 10 10; blob 600 50 12] = [51; 0]
  /\ exists sa co n,
       detect_bubbles (inked 1) example_contours = Tuple3 sa co n
       /\ sa !! 1 = Some (PyStr (lit "A")).
Proof.
  split; [reflexivity|].
  destruct (detect_bubbles_rows (inked 1) example_contours)
    as (sa & co & Hd & Hrows & _); [discriminate|].
  eexists sa, co, _. split; [exact Hd|].
  destruct (Hrows 0%nat [blob 600 10 10; blob 600 50 12] eq_refl) as [H _].
  exact H.
Qed.



(** C7: the percentage stored by grading is the binary64 value of
    [score / keyQuestionCount * 100]; for the key [{1:'A', 2:'B', 3:'C'}] and
    the student answers [{1:'A', 2:'C', 3:'Unanswered'}] grading yields
    score 1, one correct, one incorrect and one unanswered question, and a
    percentage that reads 33.33 with the two decimals of its printed form. *)
Theorem C7_percentage :
  (forall (student_answers correct_answers : answers) (keyQuestionCount : Z),
     keyQuestionCount <> 0 ->
     exists g,
       grade student_answers correct_answers keyQuestionCount = inr g
       /\ score g = tally student_answers correct_answers Correct
                      (range 1 (keyQuestionCount + 1))
       /\ percentage_binary64 g
          = PrimFloat.mul
              (PrimFloat.div (float_of_int (score g))
                             (float_of_int keyQuestionCount))
              (float_of_int 100))
  /\ exists g,
       grade example_student example_key 3 = inr g
       /\ score g = 1 /\ correct_count g = 1 /\ incorrect_count g = 1
       /\ unanswered_count g = 1
       /\ percentage_binary64 g
          = PrimFloat.mul (PrimFloat.div 1%float 3%float) 100%float
       /\ format_2f (percentage_binary64 g) = Some 33.33%Q.
Proof.
  split.
  - intros sa ca n Hn. rewrite (grade_nonzero _ _ _ Hn). simpl.
    eexists. split; [reflexivity|]. simpl.
    split; [apply grade_loop_tally|reflexivity].
  - eexists. split; [vm_compute; reflexivity|]. by vm_compute.
Qed.

(** The stored value itself has all its decimals: it is the binary64 next
    to 33.33333333333333, and with 11 correct answers out of 20 it is the
    one next to 55.00000000000001. *)
Example percentage_stored_unrounded :
  PrimFloat.mul (PrimFloat.div 1%float 3%float) 100%float
  = 0x1.0aaaaaaaaaaaap+5%float
  /\ PrimFloat.mul (PrimFloat.div (float_of_int 11) (float_of_int 20))
                   (float_of_int 100)
     = 0x1.b800000000001p+5%float
  /\ format_2f (PrimFloat.mul (PrimFloat.div (float_of_int 49)
                                             (float_of_int 160))
                              (float_of_int 100))
     = Some 30.63%Q.
Proof. repeat split; vm_compute; reflexivity. Qed.

(** C8: for every question count [N >= 1] and every pair of answer maps,
    grading returns, each question of [1..N] falls under exactly one of the
    three verdicts, each counter is the number of questions under its
    verdict, and the three counters add up to [N]. *)
Theorem C8_counts_total (student_answers correct_answers : answers) (N : Z) :
  1 <= N ->
  exists g,
    grade student_answers correct_answers N = inr g
    /\ total_questions g = N
    /\ (let qs := range 1 (N + 1) in
        (forall q, q ∈ qs <-> 1 <= q <= N)
        /\ correct_count g = tally student_answers correct_answers Correct qs
        /\ incorrect_count g
           = tally student_answers correct_answers Incorrect qs
        /\ unanswered_count g
           = tally student_answers correct_answers Unanswered qs)
    /\ correct_count g + incorrect_count g + unanswered_count g = N.
Proof.
  intros HN. rewrite grade_nonzero by lia. simpl.
  eexists. split; [reflexivity|]. simpl.
  destruct (grade_loop_tally student_answers correct_answers N)
    as (_ & H2 & H3 & H4).
  split; [done|]. split.
  - split; [|done]. intros q. unfold range. rewrite list_elem_of_fmap.
    split.
    + intros (i & -> & Hi). apply list_elem_of_In, in_seq in Hi. lia.
    + intros Hq. exists (Z.to_nat (q - 1)). split; [lia|].
      apply list_elem_of_In, in_seq. lia.
  - rewrite H2, H3, H4, tally_total, range_length. lia.
Qed.

Lemma C8_example_witness :
  1 <= 3
  /\ exists g,
       grade example_student example_key 3 = inr g
       /\ correct_count g + incorrect_count g + unanswered_count g = 3.
Proof.
  split; [lia|].
  destruct (C8_counts_total example_student example_key 3) as (g & Hg & _ & _ & H);
    [lia|].
  exists g. split; [exact Hg|exact H].
Defined.

Lemma tally_all sa ca v (qs : list Z) :
  (forall q, q ∈ qs -> verdict_of sa ca q = v) ->
  tally sa ca v qs = Z.of_nat (length qs).
Proof.
  intros H. unfold tally. do 2 f_equal.
  induction qs as [|q qs IH]; [done|].
  rewrite filter_cons. rewrite decide_True by (apply H; left).
  f_equal. apply IH. intros q' Hq'. apply H. by right.
Qed.

Lemma tally_none sa ca v (qs : list Z) :
  (forall q, q ∈ qs -> verdict_of sa ca q <> v) ->
  tally sa ca v qs = 0.
Proof.
  intros H. unfold tally.
  induction qs as [|q qs IH]; [done|].
  rewrite filter_cons. rewrite decide_False by (apply H; left).
  apply IH. intros q' Hq'. apply H. by right.
Qed.

Lemma absent_is_incorrect (sa ca : answers) (q : Z) (a : str) :
  ca !! q = Some (PyStr a) -> sa !! q = None ->
  verdict_of sa ca q = Incorrect.
Proof.
  intros Hc Hs. unfold verdict_of, get, eqb. rewrite Hc, Hs. reflexivity.
Qed.

(** C9: a question that the key answers and that is absent from the
    student's answer map is counted as incorrect, not as unanswered; so an
    empty student map graded against a key that answers the questions
    [1..N] gives [incorrect_count = N] and leaves the other counters at 0. *)
Theorem C9_absent_counts_incorrect (correct_answers : answers) (N : Z) :
  1 <= N ->
  (forall q, 1 <= q <= N -> exists a, correct_answers !! q = Some (PyStr a)) ->
  (forall (student_answers : answers) q,
     1 <= q <= N -> student_answers !! q = None ->
     verdict_of student_answers correct_answers q = Incorrect
     /\ grade_step student_answers correct_answers (Counters 0 0 0 0) q
        = Counters 0 0 1 0)
  /\ exists g,
       grade ∅ correct_answers N = inr g
       /\ incorrect_count g = N
       /\ unanswered_count g = 0 /\ correct_count g = 0 /\ score g = 0.
Proof.
  intros HN Hkey. split.
  - intros sa q Hq Hs. destruct (Hkey q Hq) as [a Ha].
    pose proof (absent_is_incorrect sa _ _ _ Ha Hs) as Hv.
    split; [exact Hv|]. by rewrite grade_step_verdict, Hv.
  - rewrite grade_nonzero by lia. simpl. eexists. split; [reflexivity|].
    simpl.
    destruct (grade_loop_tally ∅ correct_answers N) as (H1 & H2 & H3 & H4).
    assert (Hall : forall q, q ∈ range 1 (N + 1) ->
                             verdict_of ∅ correct_answers q = Incorrect).
    { intros q Hq. unfold range in Hq. apply list_elem_of_fmap in Hq
        as (i & -> & Hi). apply list_elem_of_In, in_seq in Hi.
      destruct (Hkey (1 + Z.of_nat i)) as [a Ha]; [lia|].
      eapply absent_is_incorrect; [exact Ha|apply lookup_empty]. }
    rewrite H1, H2, H3, H4.
    rewrite (tally_all _ _ _ _ Hall), range_length.
    rewrite !tally_none; [repeat split; lia|..];
      intros q Hq; rewrite (Hall q Hq); discriminate.
Qed.

Lemma C9_empty_student_witness :
  1 <= 3
  /\ (forall q, 1 <= q <= 3 -> exists a, example_key !! q = Some (PyStr a))
  /\ exists g, grade ∅ example_key 3 = inr g /\ incorrect_count g = 3.
Proof.
  assert (Hkey : forall q, 1 <= q <= 3 ->
                           exists a, example_key !! q = Some (PyStr a)).
  { intros q Hq.
    assert (Hc : q = 1 \/ q = 2 \/ q = 3) by lia.
    destruct Hc as [Hc|[Hc|Hc]]; subst q; eexists; reflexivity. }
  split; [lia|]. split; [exact Hkey|].
  destruct (C9_absent_counts_incorrect example_key 3) as (_ & g & Hg & Hi & _);
    [lia|exact Hkey|].
  exists g. split; [exact Hg|exact Hi].
Defined.




(** * Further properties *)

(** ** Rows and candidates *)

Lemma rows_of_top_to_bottom (contours : list contour) :
  Forall row_below_anchor (rows_of contours) /\ top_to_bottom (rows_of contours).
Proof.
  destruct (rows_of_grouping contours) as (Hcat & Hok & Hbr).
  apply grouping_top_to_bottom; [|done|done].
  rewrite Hcat. apply sorted_ascending.
Qed.

Lemma rows_of_nonempty (contours : list contour) :
  Forall (fun row => row <> []) (rows_of contours).
Proof.
  destruct (rows_of_grouping contours) as (_ & Hok & _).
  eapply Forall_impl; [exact Hok|]. intros [|a r] H; [done|discriminate].
Qed.

Lemma concat_length_ge {A} (ls : list (list A)) :
  Forall (fun l => l <> []) ls -> (length ls <= length (concat ls))%nat.
Proof.
  induction 1 as [|l ls Hl _ IH]; simpl; [lia|].
  rewrite length_app. destruct l; [done|]. simpl. lia.
Qed.

(** X1: no candidate is lost or duplicated by sorting and grouping: the
    rows, read one after the other, are a rearrangement of the candidates;
    no row is empty; and the question count lies between 1 and the number of
    candidates. *)
Theorem X1_rows_partition_candidates (thresh : image)
    (contours : list contour) :
  concat (rows_of contours) ≡ₚ bubble_contours contours
  /\ Forall (fun row => row <> []) (rows_of contours)
  /\ list_sum (map length (rows_of contours))
     = length (bubble_contours contours)
  /\ (forall sa co n,
        detect_bubbles thresh contours = Tuple3 sa co n ->
        1 <= n <= Z.of_nat (length (bubble_contours contours))).
Proof.
  destruct (rows_of_grouping contours) as (Hcat & _ & _).
  assert (Hperm : concat (rows_of contours) ≡ₚ bubble_contours contours).
  { rewrite Hcat. apply sorted_perm. }
  pose proof (rows_of_nonempty contours) as Hne.
  split; [exact Hperm|]. split; [exact Hne|]. split.
  - rewrite <- length_concat. by apply Permutation_length.
  - intros sa co n Hd.
    apply detect_bubbles_tuple3_inv in Hd as (Hc & -> & _).
    pose proof (concat_length_ge _ Hne) as Hle.
    rewrite (Permutation_length Hperm) in Hle.
    split; [|lia].
    destruct (rows_of contours) eqn:E; [|simpl; lia].
    apply rows_of_nil_iff in E. done.
Qed.

(** X2: two bubbles of the same row never differ in top Y by more than the
    tolerance. *)
Theorem X2_same_row_within_tolerance (contours : list contour)
    (row : list contour) (a b : contour) :
  row ∈ rows_of contours -> a ∈ row -> b ∈ row ->
  Z.abs (top a - top b) <= y_tolerance.
Proof.
  intros Hrow Ha Hb.
  destruct (rows_of_top_to_bottom contours) as [Hall _].
  rewrite Forall_forall in Hall. specialize (Hall row Hrow).
  destruct row as [|anchor others]; [done|]. simpl in Hall.
  rewrite Forall_forall in Hall. unfold y_tolerance.
  apply elem_of_cons in Ha as [->|Ha]; apply elem_of_cons in Hb as [->|Hb].
  - lia.
  - specialize (Hall b Hb). simpl in Hall. lia.
  - specialize (Hall a Ha). simpl in Hall. lia.
  - pose proof (Hall a Ha). pose proof (Hall b Hb). simpl in *. lia.
Qed.

Lemma X2_example_witness :
  [blob 600 10 10; blob 600 50 12] ∈ rows_of example_contours
  /\ Z.abs (top (blob 600 10 10) - top (blob 600 50 12)) <= y_tolerance.
Proof.
  assert (H : [blob 600 10 10; blob 600 50 12] ∈ rows_of example_contours)
    by (apply list_elem_of_here).
  split; [exact H|].
  apply (X2_same_row_within_tolerance example_contours _ _ _ H).
  - apply list_elem_of_here.
  - apply list_elem_of_further, list_elem_of_here.
Defined.

Lemma scan_loop_coords_size (thresh : image) (l : list contour) (i : Z)
    (st : scan) :
  0 <= i ->
  (forall k : nat, coords_per_row st !! chr (65 + (i + Z.of_nat k)) = None) ->
  size (coords_per_row (scan_loop thresh i l st))
  = (size (coords_per_row st) + length l)%nat.
Proof.
  revert i st. induction l as [|b l IH]; intros i st Hi Hfree.
  { unfold scan_loop. simpl. lia. }
  rewrite scan_loop_cons, IH; [|lia|].
  - rewrite scan_step_coords, map_size_insert_None; [simpl; lia|].
    specialize (Hfree 0%nat). by rewrite Z.add_0_r in Hfree.
  - intros k. rewrite scan_step_coords, lookup_insert_ne.
    + specialize (Hfree (S k)).
      by replace (i + 1 + Z.of_nat k) with (i + Z.of_nat (S k)) by lia.
    + intros Heq. apply chr_inj in Heq; lia.
Qed.

Lemma scan_row_coords_size (thresh : image) (row : list contour) :
  size (coords_per_row (scan_row thresh row)) = length row.
Proof.
  rewrite scan_row_loop, scan_loop_coords_size; [| lia |].
  - simpl. rewrite map_size_empty. unfold options. by rewrite sorted_length.
  - intros k. apply lookup_empty.
Qed.

(** X3: the coordinates of a question hold exactly one lettered box per
    bubble of its row (no two bubbles share a letter). *)
Theorem X3_one_box_per_bubble (thresh : image) (contours : list contour) :
  bubble_contours contours <> [] ->
  exists sa co n,
    detect_bubbles thresh contours = Tuple3 sa co n
    /\ forall (k : nat) row, rows_of contours !! k = Some row ->
         exists cpr, co !! (Z.of_nat k + 1) = Some cpr
                     /\ size cpr = length row.
Proof.
  intros Hne.
  destruct (detect_bubbles_rows thresh contours Hne)
    as (sa & co & Hd & Hrows & _).
  eexists sa, co, _. split; [exact Hd|].
  intros k row Hk. destruct (Hrows k row Hk) as [_ Hc].
  eexists. split; [exact Hc|]. apply scan_row_coords_size.
Qed.

Lemma X3_example_witness :
  bubble_contours example_contours <> []
  /\ exists sa co n, detect_bubbles (inked 1) example_contours = Tuple3 sa co n
       /\ exists cpr, co !! 1 = Some cpr /\ size cpr = 2%nat.
Proof.
  assert (Hne : bubble_contours example_contours <> []) by discriminate.
  split; [exact Hne|].
  destruct (X3_one_box_per_bubble (inked 1) example_contours Hne)
    as (sa & co & n & Hd & Hsz).
  exists sa, co, n. split; [exact Hd|].
  apply (Hsz 0%nat [blob 600 10 10; blob 600 50 12]). reflexivity.
Defined.

(** ** Answers and boxes *)

Lemma answer_of_scan_row_str (thresh : image) (row : list contour) :
  exists s, answer_of (scan_row thresh row) = PyStr s.
Proof.
  unfold answer_of.
  destruct (50 <? max_filled_pixels (scan_row thresh row)) eqn:E; [|eauto].
  apply Z.ltb_lt in E.
  destruct (scan_row_max thresh row) as [(_ & H0 & _) | (w & _ & _ & Hs)];
    [lia|eauto].
Qed.

(** X4: [student_answers] never holds [None]: every question from 1 to the
    question count has a string, so [get] answers [None] exactly for the
    question numbers outside that range. *)
Theorem X4_answers_are_strings (thresh : image) (contours : list contour) :
  bubble_contours contours <> [] ->
  exists sa co n,
    detect_bubbles thresh contours = Tuple3 sa co n
    /\ (forall q, 1 <= q <= n -> exists s, sa !! q = Some (PyStr s))
    /\ (forall q, get sa q = PyNone <-> ~ (1 <= q <= n)).
Proof.
  intros Hne.
  destruct (detect_bubbles_rows thresh contours Hne)
    as (sa & co & Hd & Hrows & Hout).
  set (n := Z.of_nat (length (rows_of contours))) in *.
  assert (Hin : forall q, 1 <= q <= n -> exists s, sa !! q = Some (PyStr s)).
  { intros q Hq.
    destruct (lookup_lt_is_Some_2 (rows_of contours) (Z.to_nat (q - 1)))
      as [row Hrow]; [subst n; lia|].
    destruct (Hrows _ _ Hrow) as [H1 _].
    replace (Z.of_nat (Z.to_nat (q - 1)) + 1) with q in H1 by lia.
    destruct (answer_of_scan_row_str thresh row) as [s Hs].
    exists s. by rewrite H1, Hs. }
  exists sa, co, n. split; [exact Hd|]. split; [exact Hin|].
  intros q. unfold get. split.
  - intros Hq [H1 H2]. destruct (Hin q (conj H1 H2)) as [s Hs].
    rewrite Hs in Hq. discriminate.
  - intros Hq. destruct (Hout q Hq) as [-> _]. done.
Qed.

Lemma X4_example_witness :
  bubble_contours example_contours <> []
  /\ exists sa co n, detect_bubbles (inked 1) example_contours = Tuple3 sa co n
       /\ get sa 0 = PyNone.
Proof.
  assert (Hne : bubble_contours example_contours <> []) by discriminate.
  split; [exact Hne|].
  destruct (X4_answers_are_strings (inked 1) example_contours Hne)
    as (sa & co & n & Hd & _ & Hnone).
  exists sa, co, n. split; [exact Hd|]. apply Hnone. lia.
Defined.

Lemma ascending_lookup {A} (key : A -> Z) (l : list A) (j j' : nat) (a b : A) :
  ascending key l -> (j <= j')%nat ->
  l !! j = Some a -> l !! j' = Some b -> key a <= key b.
Proof.
  revert j j'. induction l as [|c l IH]; intros j j' Hasc Hjj Ha Hb; [done|].
  destruct Hasc as [Hc Hasc]. destruct j as [|j]; simpl in Ha.
  - injection Ha as ->. destruct j' as [|j']; simpl in Hb.
    + injection Hb as ->. lia.
    + rewrite Forall_forall in Hc. apply Hc.
      eapply list_elem_of_lookup_2. exact Hb.
  - destruct j' as [|j']; [lia|]. simpl in Hb.
    apply (IH j j'); [done|lia|done|done].
Qed.

Lemma scan_row_coords_inv (thresh : image) (row : list contour) (j : nat)
    (r : rect) :
  coords_per_row (scan_row thresh row) !! chr (65 + Z.of_nat j) = Some r ->
  exists b, options row !! j = Some b /\ r = box_of b.
Proof.
  intros Hr.
  assert (Hdom : chr (65 + Z.of_nat j)
                 ∈ dom (coords_per_row (scan_row thresh row)))
    by (apply elem_of_dom; eauto).
  apply scan_row_coords_dom in Hdom as (j' & Hj' & Heq).
  apply chr_inj in Heq; [|lia|lia]. assert (j' = j) as -> by lia.
  destruct (lookup_lt_is_Some_2 (options row) j) as [b Hb].
  { unfold options. by rewrite sorted_length. }
  exists b. split; [exact Hb|].
  rewrite (scan_row_coords _ _ _ _ Hb) in Hr. by injection Hr.
Qed.

(** X5: in the coordinates of a question the letters follow the X order of
    the boxes (the box of an earlier letter never starts to the right of the
    box of a later one), and every stored box [(x1, y1, x2, y2)] has
    [x1 < x2] and [y1 < y2]. *)
Theorem X5_letters_follow_x (thresh : image) (contours : list contour) :
  bubble_contours contours <> [] ->
  exists sa co n,
    detect_bubbles thresh contours = Tuple3 sa co n
    /\ forall (k : nat) row, rows_of contours !! k = Some row ->
         exists cpr,
           co !! (Z.of_nat k + 1) = Some cpr
           /\ forall (j j' : nat) x1 y1 x2 y2 x1' y1' x2' y2',
                (j <= j')%nat ->
                cpr !! chr (65 + Z.of_nat j) = Some (x1, y1, x2, y2) ->
                cpr !! chr (65 + Z.of_nat j') = Some (x1', y1', x2', y2') ->
                x1 <= x1' /\ x1 < x2 /\ y1 < y2.
Proof.
  intros Hne.
  destruct (detect_bubbles_rows thresh contours Hne)
    as (sa & co & Hd & Hrows & _).
  eexists sa, co, _. split; [exact Hd|].
  intros k row Hk. destruct (Hrows k row Hk) as [_ Hc].
  eexists. split; [exact Hc|].
  intros j j' x1 y1 x2 y2 x1' y1' x2' y2' Hjj Hj Hj'.
  apply scan_row_coords_inv in Hj as (b & Hb & Hbox).
  apply scan_row_coords_inv in Hj' as (b' & Hb' & Hbox').
  pose proof (ascending_lookup left (options row) j j' b b'
                (sorted_ascending left row) Hjj Hb Hb') as Hle.
  pose proof (boundingRect_pos b) as Hpos.
  unfold box_of, left in *.
  destruct (boundingRect b) as [[[x y] w] h].
  destruct (boundingRect b') as [[[x' y'] w'] h'].
  injection Hbox as -> -> -> ->. injection Hbox' as -> -> -> ->.
  simpl in *. apply andb_true_iff in Hpos as [Hw Hh].
  apply Z.ltb_lt in Hw, Hh. lia.
Qed.

Lemma X5_example_witness :
  bubble_contours example_contours <> []
  /\ exists sa co n, detect_bubbles (inked 1) example_contours = Tuple3 sa co n.
Proof.
  assert (Hne : bubble_contours example_contours <> []) by discriminate.
  split; [exact Hne|].
  destruct (X5_letters_follow_x (inked 1) example_contours Hne)
    as (sa & co & n & Hd & _).
  exists sa, co, n. exact Hd.
Defined.

(** ** Fill intensity *)

Lemma slice_length_le {A} (lo w : Z) (l : list A) :
  0 <= w -> (length (slice lo (lo + w) l) <= Z.to_nat w)%nat.
Proof.
  intros Hw. unfold slice, bound. rewrite length_take, length_drop.
  destruct (lo <? 0) eqn:E1; destruct (lo + w <? 0) eqn:E2; lia.
Qed.

Lemma slice_Forall {A} (P : A -> Prop) (lo hi : Z) (l : list A) :
  Forall P l -> Forall P (slice lo hi l).
Proof. intros H. unfold slice. by apply Forall_take, Forall_drop. Qed.

Lemma concat_length_le {A} (n : nat) (ls : list (list A)) :
  Forall (fun l => (length l <= n)%nat) ls ->
  (length (concat ls) <= length ls * n)%nat.
Proof.
  induction 1 as [|l ls Hl _ IH]; simpl; [lia|]. rewrite length_app. lia.
Qed.

Lemma countNonZero_zero (m : image) :
  Forall (Forall (fun p => p = 0)) m -> countNonZero m = 0.
Proof.
  intros H. unfold countNonZero. apply Forall_concat in H.
  induction H as [|p l Hp _ IH]; [done|].
  rewrite filter_cons, decide_False by (intros Hn; apply Hn, Hp). exact IH.
Qed.

Lemma filled_of_zero_mask (thresh : image) (b : contour) :
  Forall (Forall (fun p => p = 0)) thresh -> filled_of thresh b = 0.
Proof.
  intros Hz. unfold filled_of. destruct (boundingRect b) as [[[x y] w] h].
  apply countNonZero_zero. unfold roi.
  apply Forall_map. apply slice_Forall.
  eapply Forall_impl; [exact Hz|]. intros r Hr. simpl.
  by apply slice_Forall.
Qed.

Lemma blank_zero : Forall (Forall (fun p => p = 0)) blank.
Proof.
  apply Forall_forall. intros r Hr.
  apply list_elem_of_In, repeat_spec in Hr. subst r.
  apply Forall_forall. intros p Hp.
  by apply list_elem_of_In, repeat_spec in Hp.
Qed.

(** X6: the fill of a bubble is a pixel count between 0 and the area
    [w * h] of its bounding box, however the box lies with respect to the
    mask; on a mask without foreground pixels it is 0. *)
Theorem X6_fill_bounds (thresh : image) (b : contour) :
  0 <= filled_of thresh b
       <= rect_w (boundingRect b) * rect_h (boundingRect b)
  /\ (Forall (Forall (fun p => p = 0)) thresh -> filled_of thresh b = 0).
Proof.
  split; [|apply filled_of_zero_mask].
  pose proof (boundingRect_pos b) as Hpos.
  unfold filled_of. destruct (boundingRect b) as [[[x y] w] h]. simpl in *.
  apply andb_true_iff in Hpos as [Hw Hh]. apply Z.ltb_lt in Hw, Hh.
  split; [apply countNonZero_nonneg|].
  unfold countNonZero, roi.
  pose proof (length_filter (fun p => p ≠ 0)
                (concat (map (slice x (x + w)) (slice y (y + h) thresh)))).
  pose proof (concat_length_le (Z.to_nat w)
                (map (slice x (x + w)) (slice y (y + h) thresh))) as Hc.
  rewrite length_map in Hc.
  pose proof (slice_length_le y h thresh ltac:(lia)).
  assert (length (concat (map (slice x (x + w)) (slice y (y + h) thresh)))
          <= length (slice y (y + h) thresh) * Z.to_nat w)%nat.
  { apply Hc. apply Forall_map, Forall_forall. intros r _. simpl.
    apply slice_length_le. lia. }
  nia.
Qed.

Lemma candidate_in_row (contours : list contour) (b : contour) :
  b ∈ bubble_contours contours <->
  exists row, row ∈ rows_of contours /\ b ∈ row.
Proof.
  destruct (rows_of_grouping contours) as (Hcat & _ & _).
  rewrite <- (sorted_perm top (bubble_contours contours)), <- Hcat.
  rewrite list_elem_of_In, in_concat.
  split; intros (row & H1 & H2); exists row;
    by rewrite ?list_elem_of_In in *.
Qed.

Lemma scan_row_unanswered_iff (thresh : image) (row : list contour) :
  answer_of (scan_row thresh row) = PyStr (lit "Unanswered") <->
  forall b, b ∈ row -> filled_of thresh b <= 50.
Proof.
  unfold answer_of. rewrite scan_row_max_fill.
  assert (Hrow : forall b, b ∈ row <-> b ∈ options row).
  { intros b. unfold options. by rewrite sorted_perm. }
  destruct (50 <? max_fill (fills thresh row)) eqn:E.
  - apply Z.ltb_lt in E. split.
    + intros Hs.
      destruct (scan_row_max thresh row) as [(_ & H0 & _) | (w & _ & _ & Hw)].
      * rewrite scan_row_max_fill in H0. lia.
      * rewrite Hw in Hs. discriminate.
    + intros Hall. exfalso.
      destruct (max_fill_attained (fills thresh row)) as [H0|[j Hj]]; [lia|].
      unfold fills in Hj. rewrite list_lookup_fmap in Hj.
      destruct (options row !! j) as [b|] eqn:Hb; [|done].
      injection Hj as Hj. apply list_elem_of_lookup_2, Hrow, Hall in Hb.
      fold (fills thresh row) in Hj. lia.
  - apply Z.ltb_ge in E. split; [|done]. intros _ b Hb.
    apply Hrow, list_elem_of_lookup_1 in Hb as [j Hj].
    assert (Hf : fills thresh row !! j = Some (filled_of thresh b)).
    { unfold fills. by rewrite list_lookup_fmap, Hj. }
    apply max_fill_upper in Hf. lia.
Qed.

(** X7: every question of a sheet is recorded as "Unanswered" exactly when no
    candidate's bounding box holds more than 50 foreground pixels. *)
Theorem X7_all_unanswered_iff (thresh : image) (contours : list contour) :
  bubble_contours contours <> [] ->
  exists sa co n,
    detect_bubbles thresh contours = Tuple3 sa co n
    /\ ((forall q v, sa !! q = Some v -> v = PyStr (lit "Unanswered"))
        <-> (forall b, b ∈ bubble_contours contours ->
                       filled_of thresh b <= 50)).
Proof.
  intros Hne.
  destruct (detect_bubbles_rows thresh contours Hne)
    as (sa & co & Hd & Hrows & Hout).
  eexists sa, co, _. split; [exact Hd|]. split.
  - intros Hall b Hb.
    apply candidate_in_row in Hb as (row & Hrow & Hb).
    apply list_elem_of_lookup_1 in Hrow as [k Hk].
    destruct (Hrows k row Hk) as [Hs _]. apply Hall in Hs.
    by apply (scan_row_unanswered_iff thresh row).
  - intros Hall q v Hv.
    destruct (decide (1 <= q <= Z.of_nat (length (rows_of contours))))
      as [Hq|Hq].
    + destruct (lookup_lt_is_Some_2 (rows_of contours) (Z.to_nat (q - 1)))
        as [row Hrow]; [lia|].
      destruct (Hrows _ _ Hrow) as [H1 _].
      replace (Z.of_nat (Z.to_nat (q - 1)) + 1) with q in H1 by lia.
      rewrite H1 in Hv. injection Hv as <-.
      apply scan_row_unanswered_iff. intros b Hb. apply Hall.
      apply candidate_in_row. exists row. split; [|done].
      eapply list_elem_of_lookup_2. exact Hrow.
    + destruct (Hout q Hq) as [H1 _]. rewrite H1 in Hv. discriminate.
Qed.

Lemma X7_blank_mask_witness :
  bubble_contours example_contours <> []
  /\ exists sa co n, detect_bubbles blank example_contours = Tuple3 sa co n
       /\ forall q v, sa !! q = Some v -> v = PyStr (lit "Unanswered").
Proof.
  assert (Hne : bubble_contours example_contours <> []) by discriminate.
  split; [exact Hne|].
  destruct (X7_all_unanswered_iff blank example_contours Hne)
    as (sa & co & n & Hd & Hiff).
  exists sa, co, n. split; [exact Hd|]. apply Hiff.
  intros b Hb. rewrite (filled_of_zero_mask blank b blank_zero). lia.
Defined.

(** ** Scoring *)

Lemma tally_bounds sa ca v (qs : list Z) :
  0 <= tally sa ca v qs <= Z.of_nat (length qs).
Proof.
  unfold tally.
  pose proof (length_filter (fun q => verdict_of sa ca q = v) qs). lia.
Qed.





Lemma verdict_correct_iff (sa ca : answers) (q : Z) :
  verdict_of sa ca q = Correct <-> get sa q = get ca q.
Proof.
  unfold verdict_of, eqb.
  destruct (bool_decide (get sa q = get ca q)) eqn:E.
  - apply bool_decide_eq_true in E. done.
  - apply bool_decide_eq_false in E.
    destruct (bool_decide _); split; (done || discriminate).
Qed.







Lemma verdict_unanswered_iff (sa ca : answers) (q : Z) :
  verdict_of sa ca q = Unanswered <->
  get sa q = PyStr (lit "Unanswered") /\ get ca q <> PyStr (lit "Unanswered").
Proof.
  unfold verdict_of, eqb.
  destruct (bool_decide (get sa q = get ca q)) eqn:E1;
    destruct (bool_decide (get sa q = PyStr (lit "Unanswered"))) eqn:E2;
    try apply bool_decide_eq_true in E1; try apply bool_decide_eq_false in E1;
    try apply bool_decide_eq_true in E2; try apply bool_decide_eq_false in E2;
    split; try done; try (intros [H1 H2]; congruence).
  intros _. split; [done|]. congruence.
Qed.

(** X11: [unanswered_count] counts the questions whose student answer is
    "Unanswered" while the key's answer is something else; a question that
    is "Unanswered" on both sheets is counted as correct and scores. *)
Theorem X11_unanswered_only_against_a_key_answer (sa ca : answers) (N : Z) :
  1 <= N ->
  exists g,
    grade sa ca N = inr g
    /\ unanswered_count g
       = Z.of_nat (length (filter
           (fun q => get sa q = PyStr (lit "Unanswered")
                     /\ get ca q <> PyStr (lit "Unanswered"))
           (range 1 (N + 1))))
    /\ (forall q c,
          get sa q = PyStr (lit "Unanswered") ->
          get ca q = PyStr (lit "Unanswered") ->
          grade_step sa ca c q
          = Counters (c_score c + 1) (c_correct c + 1) (c_incorrect c)
                     (c_unanswered c)).
Proof.
  intros HN. rewrite grade_nonzero by lia. simpl.
  eexists. split; [reflexivity|]. simpl. split.
  - destruct (grade_loop_tally sa ca N) as (_ & _ & _ & ->).
    unfold tally. do 2 f_equal. apply list_filter_iff.
    intros q. apply verdict_unanswered_iff.
  - intros q c Hs Hc. rewrite grade_step_verdict.
    assert (Hv : verdict_of sa ca q = Correct)
      by (apply verdict_correct_iff; congruence).
    by rewrite Hv.
Qed.

Lemma X11_example_witness :
  1 <= 3
  /\ exists g, grade example_student example_key 3 = inr g
               /\ unanswered_count g = 1.
Proof.
  split; [lia|].
  destruct (X11_unanswered_only_against_a_key_answer
              example_student example_key 3) as (g & Hg & Hu & _); [lia|].
  exists g. split; [exact Hg|]. rewrite Hu. reflexivity.
Defined.

(** ** The pipeline *)

(** With candidates on both sheets: what [process_sheet] returns. *)
Lemma process_sheet_graded_inv (student key : sheet) :
  bubble_contours (contours student) <> [] ->
  bubble_contours (contours key) <> [] ->
  exists sa co ka kc g,
    detect_bubbles (thresh student) (contours student)
    = Tuple3 sa co (Z.of_nat (length (rows_of (contours student))))
    /\ detect_bubbles (thresh key) (contours key)
       = Tuple3 ka kc (Z.of_nat (length (rows_of (contours key))))
    /\ grade sa ka (Z.of_nat (length (rows_of (contours key)))) = inr g
    /\ process_sheet student (Some key) = inr (Result sa co (Some g)).
Proof.
  intros Hs Hk. unfold process_sheet.
  destruct (detect_bubbles_rows (thresh student) _ Hs) as (sa & co & Hds & _).
  destruct (detect_bubbles_rows (thresh key) _ Hk) as (ka & kc & Hdk & _).
  rewrite Hds, Hdk. simpl.
  assert (Hn : Z.of_nat (length (rows_of (contours key))) <> 0).
  { destruct (rows_of (contours key)) eqn:E; [|simpl; lia].
    apply rows_of_nil_iff in E. done. }
  rewrite (grade_nonzero _ _ _ Hn). simpl.
  eexists sa, co, ka, kc, _. repeat split; try done.
  by rewrite (grade_nonzero _ _ _ Hn).
Qed.

(** X12: on loaded sheets [process_sheet] raises nothing but [ValueError],
    and only when the student sheet or the key sheet has no bubble
    candidate: the zero division of the percentage is never reached.
    Without a key sheet it returns the detected answers and coordinates and
    no grading entry. *)
Theorem X12_process_sheet_outcomes (student : sheet) (correct : option sheet) :
  (forall e, process_sheet student correct = inl e ->
     e = ValueError
     /\ (bubble_contours (contours student) = []
         \/ exists key, correct = Some key
                        /\ bubble_contours (contours key) = []))
  /\ (bubble_contours (contours student) <> [] ->
      exists sa co n,
        detect_bubbles (thresh student) (contours student) = Tuple3 sa co n
        /\ process_sheet student None = inr (Result sa co None)).
Proof.
  split.
  - intros e He.
    destruct (decide (bubble_contours (contours student) = [])) as [Hs|Hs].
    { destruct student as [t c].
      unfold process_sheet in He. simpl in *.
      rewrite (detect_bubbles_early _ _ Hs) in He. simpl in He.
      injection He as <-. split; [done|by left]. }
    destruct correct as [key|].
    + destruct (decide (bubble_contours (contours key) = [])) as [Hk|Hk].
      * rewrite (process_sheet_blank_key _ _ Hs Hk) in He.
        injection He as <-. split; [done|]. right. eauto.
      * destruct (process_sheet_graded _ _ Hs Hk) as (r & g & Hr & _).
        rewrite Hr in He. discriminate.
    + unfold process_sheet in He.
      destruct (detect_bubbles_rows (thresh student) _ Hs)
        as (sa & co & Hd & _).
      rewrite Hd in He. discriminate.
  - intros Hs. unfold process_sheet.
    destruct (detect_bubbles_rows (thresh student) _ Hs) as (sa & co & Hd & _).
    rewrite Hd. simpl. eauto.
Qed.

Lemma count_not_incorrect_le (sa ca : answers) (ns m : Z) (n : nat) :
  0 <= ns -> Z.of_nat n <= m ->
  (forall q, ns < q <= m -> verdict_of sa ca q = Incorrect) ->
  tally sa ca Correct (range 1 (1 + Z.of_nat n))
  + tally sa ca Unanswered (range 1 (1 + Z.of_nat n))
  <= Z.min (Z.of_nat n) ns.
Proof.
  intros Hns Hm Hinc. induction n as [|n IH].
  - rewrite range_empty by lia. unfold tally. simpl. lia.
  - rewrite range_succ, !tally_snoc. specialize (IH ltac:(lia)).
    destruct (Z_lt_le_dec ns (1 + Z.of_nat n)) as [Hlt|Hle].
    + rewrite (Hinc (1 + Z.of_nat n)) by lia.
      repeat case_decide; try done. lia.
    + repeat case_decide; try congruence; lia.
Qed.

(** X13: when the student sheet yields fewer rows than the key sheet, every
    question without a student row is counted as incorrect, and the score
    cannot exceed the number of student rows. *)
Theorem X13_missing_rows_are_incorrect (student key : sheet) :
  bubble_contours (contours student) <> [] ->
  bubble_contours (contours key) <> [] ->
  let ns := Z.of_nat (length (rows_of (contours student))) in
  let nk := Z.of_nat (length (rows_of (contours key))) in
  exists r g,
    process_sheet student (Some key) = inr r
    /\ grading r = Some g
    /\ total_questions g = nk
    /\ nk - ns <= incorrect_count g
    /\ score g <= Z.min nk ns.
Proof.
  intros Hs Hk ns nk.
  destruct (process_sheet_graded_inv _ _ Hs Hk)
    as (sa & co & ka & kc & g & Hds & Hdk & Hg & Hp).
  exists (Result sa co (Some g)), g. split; [exact Hp|]. split; [done|].
  fold nk in Hg, Hdk. fold ns in Hds.
  assert (Hnk : 1 <= nk).
  { subst nk. destruct (rows_of (contours key)) eqn:E; [|simpl; lia].
    apply rows_of_nil_iff in E. done. }
  rewrite grade_nonzero in Hg by lia. simpl in Hg. injection Hg as <-. simpl.
  apply detect_bubbles_tuple3_inv in Hds as (_ & _ & _ & Hout).
  apply detect_bubbles_tuple3_inv in Hdk as (_ & _ & Hrows & Hkout).
  assert (Hinc : forall q, ns < q <= nk -> verdict_of sa ka q = Incorrect).
  { intros q Hq. destruct (Hout q) as [Hnone _]; [lia|].
    unfold verdict_of, get, eqb. rewrite Hnone. simpl.
    destruct (lookup_lt_is_Some_2 (rows_of (contours key))
                (Z.to_nat (q - 1))) as [row Hrow]; [subst ns nk; lia|].
    destruct (Hrows _ _ Hrow) as [H1 _].
    replace (Z.of_nat (Z.to_nat (q - 1)) + 1) with q in H1 by lia.
    destruct (answer_of_scan_row_str (thresh key) row) as [s Hstr].
    rewrite H1, Hstr. reflexivity. }
  destruct (grade_loop_tally sa ka nk) as (H1 & _ & H3 & _).
  pose proof (tally_total sa ka (range 1 (nk + 1))) as Htot.
  rewrite range_length in Htot.
  pose proof (count_not_incorrect_le sa ka ns nk (Z.to_nat nk)
                ltac:(subst ns; lia) ltac:(lia) Hinc) as Hle.
  replace (1 + Z.of_nat (Z.to_nat nk)) with (nk + 1) in Hle by lia.
  pose proof (tally_bounds sa ka Unanswered (range 1 (nk + 1))).
  split; [done|]. rewrite H1, H3. lia.
Qed.

Lemma X13_short_sheet_witness :
  bubble_contours (contours short_sheet) <> []
  /\ bubble_contours (contours example_sheet) <> []
  /\ exists r g,
       process_sheet short_sheet (Some example_sheet) = inr r
       /\ grading r = Some g /\ 1 <= incorrect_count g.
Proof.
  assert (Hs : bubble_contours (contours short_sheet) <> []) by discriminate.
  assert (Hk : bubble_contours (contours example_sheet) <> [])
    by discriminate.
  split; [exact Hs|]. split; [exact Hk|].
  destruct (X13_missing_rows_are_incorrect short_sheet example_sheet Hs Hk)
    as (r & g & Hr & Hg & _ & Hi & _).
  exists r, g. split; [exact Hr|]. split; [exact Hg|exact Hi].
Defined.

(** ** Upload validation *)

Lemma split_last_None (sep : N) (s : str) :
  split_last sep s = None <-> sep ∉ s.
Proof.
  induction s as [|c s IH]; simpl.
  - split; [intros _; apply not_elem_of_nil|done].
  - destruct (split_last sep s) as [[stem ext]|].
    + split; [done|]. intros Hn. exfalso.
      assert (Hs : sep ∉ s) by (intros H; apply Hn; by right).
      apply IH in Hs. discriminate.
    + destruct (N.eqb_spec c sep) as [->|Hne].
      * split; [done|]. intros Hn. exfalso. apply Hn. left.
      * split; [|done]. intros _ Hin.
        apply elem_of_cons in Hin as [->|Hin]; [done|].
        by apply (proj1 IH).
Qed.

Lemma split_last_Some (sep : N) (s stem ext : str) :
  split_last sep s = Some (stem, ext) <->
  s = stem ++ sep :: ext /\ sep ∉ ext.
Proof.
  revert stem. induction s as [|c s IH]; intros stem; simpl.
  - split; [done|]. intros [H _]. by destruct stem.
  - destruct (split_last sep s) as [[stem' ext']|] eqn:E.
    + split.
      * intros [= <- <-]. destruct (proj1 (IH stem') eq_refl) as [-> Hn].
        done.
      * intros [Hs Hn]. destruct stem as [|c' stem].
        -- simpl in Hs. injection Hs as -> ->.
           apply split_last_None in Hn. congruence.
        -- simpl in Hs. injection Hs as -> Hs.
           pose proof (proj2 (IH stem) (conj Hs Hn)) as Heq.
           by injection Heq as -> ->.
    + apply split_last_None in E. destruct (N.eqb_spec c sep) as [->|Hne].
      * split.
        -- intros [= <- <-]. done.
        -- intros [Hs Hn]. destruct stem as [|c' stem].
           ++ simpl in Hs. by injection Hs as ->.
           ++ simpl in Hs. injection Hs as -> ->. exfalso. apply E.
              apply elem_of_app. right. left.
      * split; [done|]. intros [Hs Hn]. destruct stem as [|c' stem].
        -- simpl in Hs. injection Hs as -> _. done.
        -- simpl in Hs. injection Hs as -> ->. exfalso. apply E.
           apply elem_of_app. right. left.
Qed.

Lemma existsb_dot (s : str) :
  existsb (fun c => (c =? dot)%N) s = true <-> dot ∈ s.
Proof.
  rewrite existsb_exists. split.
  - intros (c & Hc & Heq). apply N.eqb_eq in Heq. subst c.
    by apply list_elem_of_In.
  - intros H. exists dot. split; [by apply list_elem_of_In|apply N.eqb_refl].
Qed.

(** X14: [allowed_file] never raises (the index [[1]] is guarded by the test
    for a dot), and it accepts a file name exactly when the part after its
    last dot, in lower case, is one of the allowed extensions; a name
    without a dot is refused. *)
Theorem X14_allowed_file (lower_unicode : str -> str) (filename : str) :
  exists b,
    allowed_file lower_unicode filename = Some b
    /\ (b = true <->
        exists stem ext,
          filename = stem ++ dot :: ext /\ (dot ∉ ext)
          /\ lower lower_unicode ext ∈ ALLOWED_EXTENSIONS)
    /\ (dot ∉ filename -> b = false).
Proof.
  unfold allowed_file, rsplit1.
  destruct (existsb (fun c => (c =? dot)%N) filename) eqn:E.
  - apply existsb_dot in E.
    destruct (split_last dot filename) as [[stem ext]|] eqn:Es.
    + simpl. eexists. split; [reflexivity|].
      apply split_last_Some in Es as [Hf Hn]. split.
      * rewrite bool_decide_eq_true. split.
        -- intros H. by exists stem, ext.
        -- intros (stem' & ext' & Hf' & Hn' & H).
           assert (Hs : split_last dot filename = Some (stem', ext'))
             by (by apply split_last_Some).
           assert (Hs' : split_last dot filename = Some (stem, ext))
             by (by apply split_last_Some).
           rewrite Hs in Hs'. by injection Hs' as _ <-.
      * intros Hno. done.
    + apply split_last_None in Es. done.
  - exists false. split; [done|]. split; [|done].
    split; [done|]. intros (stem & ext & -> & _).
    assert (Hd : existsb (fun c => (c =? dot)%N) (stem ++ dot :: ext) = true).
    { apply existsb_dot, elem_of_app. right. left. }
    congruence.
Qed.

(** A name in capitals is accepted, and so is a name that is nothing but an
    extension; a trailing dot is refused. *)
Example allowed_file_examples :
  allowed_file id (lit "Sheet.v2.PDF") = Some true
  /\ allowed_file id (lit ".png") = Some true
  /\ allowed_file id (lit "sheet.pdf.") = Some false
  /\ allowed_file id (lit "pdf") = Some false.
Proof. repeat split; reflexivity. Qed.

(** ** The shapes drawn on the report *)

Lemma option_shapes_elem (sans cans : value) (isc : bool) (option : str)
    (x1 y1 x2 y2 : Z) (sh : shape) :
  sh ∈ option_shapes sans cans isc (option, (x1, y1, x2, y2)) <->
  (sh = rectangle (x1, y1, x2, y2) "green" 4
   /\ (cans = PyStr option \/ (sans = PyStr option /\ isc = true)))
  \/ (sans = PyStr option /\ isc = false
      /\ (sh = rectangle (x1, y1, x2, y2) "red" 4
          \/ sh = line (x1, y1, x2, y2) "red" 4
          \/ sh = line (x1, y2, x2, y1) "red" 4)).
Proof.
  unfold option_shapes, eqb. rewrite elem_of_app.
  destruct (bool_decide (cans = PyStr option)) eqn:E1;
    destruct (bool_decide (sans = PyStr option)) eqn:E2;
    destruct isc;
    try apply bool_decide_eq_true in E1; try apply bool_decide_eq_false in E1;
    try apply bool_decide_eq_true in E2; try apply bool_decide_eq_false in E2;
    rewrite ?elem_of_cons, ?elem_of_nil; intuition (try discriminate; try congruence).
Qed.

Lemma question_shapes_elem (sa ca : answers) (q : Z)
    (bubble_dict : list (str * rect)) (sh : shape) :
  sh ∈ question_shapes sa ca (q, bubble_dict) <->
  exists option x1 y1 x2 y2,
    (option, (x1, y1, x2, y2)) ∈ bubble_dict
    /\ ((sh = rectangle (x1, y1, x2, y2) "green" 4
         /\ get ca q = PyStr option)
        \/ (get sa q = PyStr option /\ get ca q <> PyStr option
            /\ (sh = rectangle (x1, y1, x2, y2) "red" 4
                \/ sh = line (x1, y1, x2, y2) "red" 4
                \/ sh = line (x1, y2, x2, y1) "red" 4))).
Proof.
  unfold question_shapes. rewrite list_elem_of_In, in_flat_map. split.
  - intros ([option [[[x1 y1] x2] y2]] & Hin & Hsh).
    apply list_elem_of_In in Hin, Hsh.
    exists option, x1, y1, x2, y2. split; [exact Hin|].
    apply option_shapes_elem in Hsh
      as [[-> [Hc|[Hs Hc]]]|(Hs & Hc & Hsh)].
    + by left.
    + left. split; [done|]. unfold eqb in Hc.
      apply bool_decide_eq_true in Hc. congruence.
    + right. unfold eqb in Hc. apply bool_decide_eq_false in Hc.
      split; [done|]. split; [congruence|done].
  - intros (option & x1 & y1 & x2 & y2 & Hin & Hsh).
    exists (option, (x1, y1, x2, y2)).
    split; [by apply list_elem_of_In|].
    apply list_elem_of_In, option_shapes_elem.
    destruct Hsh as [[-> Hc]|(Hs & Hc & Hsh)].
    + left. split; [done|by left].
    + right. split; [done|]. split; [|done].
      unfold eqb. apply bool_decide_eq_false. congruence.
Qed.

(** X15: the shapes that [report] draws for the questions: a green
    rectangle on the box of the key's answer, for every question whose
    coordinates have that letter; a red rectangle and the two red diagonals
    on the box of the student's answer where it is a letter of the question
    that differs from the key's answer; and nothing else.  All shapes lie on
    recorded boxes and have width 4. *)
Theorem X15_report_shapes (sa ca : answers)
    (coordinates : list (Z * list (str * rect))) (sh : shape) :
  sh ∈ report_shapes sa ca coordinates <->
  exists q bubble_dict option x1 y1 x2 y2,
    (q, bubble_dict) ∈ coordinates
    /\ (option, (x1, y1, x2, y2)) ∈ bubble_dict
    /\ ((sh = rectangle (x1, y1, x2, y2) "green" 4
         /\ get ca q = PyStr option)
        \/ (get sa q = PyStr option /\ get ca q <> PyStr option
            /\ (sh = rectangle (x1, y1, x2, y2) "red" 4
                \/ sh = line (x1, y1, x2, y2) "red" 4
                \/ sh = line (x1, y2, x2, y1) "red" 4))).
Proof.
  unfold report_shapes. rewrite list_elem_of_In, in_flat_map. split.
  - intros ([q bubble_dict] & Hin & Hsh).
    apply list_elem_of_In in Hin, Hsh.
    apply question_shapes_elem in Hsh
      as (option & x1 & y1 & x2 & y2 & Ho & Hsh).
    exists q, bubble_dict, option, x1, y1, x2, y2. done.
  - intros (q & bubble_dict & option & x1 & y1 & x2 & y2 & Hin & Ho & Hsh).
    exists (q, bubble_dict). split; [by apply list_elem_of_In|].
    apply list_elem_of_In, question_shapes_elem.
    exists option, x1, y1, x2, y2. done.
Qed.

(** ** The report of a detected sheet *)

Lemma elem_of_enumerate_from {A} (l : list A) (i0 i : Z) (a : A) :
  (i, a) ∈ enumerate_from i0 l <->
  exists k : nat, i = i0 + Z.of_nat k /\ l !! k = Some a.
Proof.
  revert i0. induction l as [|b l IH]; intros i0; simpl.
  - rewrite elem_of_nil. split; [done|]. by intros (k & _ & ?).
  - rewrite elem_of_cons, IH. split.
    + intros [[= -> ->]|(k & -> & Hk)].
      * exists 0%nat. split; [lia|done].
      * exists (S k). split; [lia|done].
    + intros ([|k] & -> & Hk); simpl in Hk.
      * left. injection Hk as ->. f_equal. lia.
      * right. exists k. split; [lia|done].
Qed.

Lemma row_items_elem (row : list contour) (s : str) (r : rect) :
  (s, r) ∈ row_items row <->
  exists (j : nat) b,
    options row !! j = Some b /\ s = chr (65 + Z.of_nat j) /\ r = box_of b.
Proof.
  unfold row_items, enumerate. rewrite list_elem_of_fmap. split.
  - intros ([i b] & [= -> ->] & Hin).
    apply elem_of_enumerate_from in Hin as (j & -> & Hj).
    exists j, b. by rewrite Z.add_0_l.
  - intros (j & b & Hj & -> & ->). exists (Z.of_nat j, b). split; [done|].
    apply elem_of_enumerate_from. exists j. split; [lia|done].
Qed.

Lemma coordinates_items_elem (contours : list contour) (q : Z)
    (bubble_dict : list (str * rect)) :
  (q, bubble_dict) ∈ coordinates_items contours <->
  exists (k : nat) row,
    rows_of contours !! k = Some row /\ q = Z.of_nat k + 1
    /\ bubble_dict = row_items row.
Proof.
  unfold coordinates_items, enumerate. rewrite list_elem_of_fmap. split.
  - intros ([i row] & [= -> ->] & Hin).
    apply elem_of_enumerate_from in Hin as (k & -> & Hk).
    exists k, row. by rewrite Z.add_0_l.
  - intros (k & row & Hk & -> & ->). exists (Z.of_nat k, row).
    split; [done|].
    apply elem_of_enumerate_from. exists k. split; [lia|done].
Qed.

Lemma items_keys_NoDup (l : list contour) (i : Z) :
  0 <= i ->
  NoDup (map (fun ib : Z * contour => (chr (65 + ib.1), box_of ib.2))
             (enumerate_from i l)).*1.
Proof.
  revert i. induction l as [|b l IH]; intros i Hi; simpl; [constructor|].
  constructor; [|apply IH; lia].
  rewrite list_elem_of_fmap. intros ([s r] & Hs & Hin). simpl in Hs. subst s.
  apply list_elem_of_fmap in Hin as ([i' b'] & [= Heq _] & Hin).
  apply elem_of_enumerate_from in Hin as (k & -> & _). lia.
Qed.

(** The dictionary of a row is the one with the items of [row_items]. *)
Lemma scan_row_coords_items (thresh : image) (row : list contour) :
  coords_per_row (scan_row thresh row) = list_to_map (row_items row).
Proof.
  apply map_eq. intros s. apply option_eq. intros r.
  assert (Hnd : NoDup (row_items row).*1)
    by (apply items_keys_NoDup; lia).
  rewrite <- (elem_of_list_to_map _ _ _ Hnd), row_items_elem. split.
  - intros Hr.
    assert (Hdom : s ∈ dom (coords_per_row (scan_row thresh row)))
      by (apply elem_of_dom; eauto).
    apply scan_row_coords_dom in Hdom as (j & Hj & ->).
    apply scan_row_coords_inv in Hr as (b & Hb & ->). eauto.
  - intros (j & b & Hb & -> & ->). by apply scan_row_coords.
Qed.

(** X16: on the report of a detected sheet, a question gets a red mark
    exactly when its recorded answer is a letter that differs from the key's
    answer: a question recorded as "Unanswered" is never crossed out, and a
    wrong letter always is.  The items over which [report] loops are those of
    the coordinates that [detect_bubbles] returns. *)
Theorem X16_red_marks_of_detected_sheet (thresh : image)
    (contours : list contour) :
  bubble_contours contours <> [] ->
  exists sa co n,
    detect_bubbles thresh contours = Tuple3 sa co n
    /\ forall (ca : answers) q bubble_dict,
         (q, bubble_dict) ∈ coordinates_items contours ->
         co !! q = Some (list_to_map bubble_dict)
         /\ ((exists sh, sh ∈ question_shapes sa ca (q, bubble_dict)
                         /\ is_red sh)
             <-> get sa q <> PyStr (lit "Unanswered")
                 /\ get sa q <> get ca q).
Proof.
  intros Hne.
  destruct (detect_bubbles_rows thresh contours Hne)
    as (sa & co & Hd & Hrows & _).
  eexists sa, co, _. split; [exact Hd|].
  intros ca q bubble_dict Hin.
  apply coordinates_items_elem in Hin as (k & row & Hk & -> & ->).
  destruct (Hrows k row Hk) as [Hs Hc].
  split; [by rewrite Hc, scan_row_coords_items|].
  assert (Hget : get sa (Z.of_nat k + 1) = answer_of (scan_row thresh row))
    by (unfold get; by rewrite Hs).
  split.
  - intros (sh & Hsh & Hred).
    apply question_shapes_elem in Hsh
      as (option & x1 & y1 & x2 & y2 & Ho & [[-> _]|(Hsq & Hcq & _)]).
    { simpl in Hred. discriminate. }
    apply row_items_elem in Ho as (j & b & _ & -> & _).
    rewrite Hsq. split; [discriminate|]. congruence.
  - rewrite Hget. intros [Hun Hdiff]. unfold answer_of in Hun, Hdiff.
    destruct (50 <? max_filled_pixels (scan_row thresh row)) eqn:E; [|done].
    apply Z.ltb_lt in E.
    destruct (scan_row_max thresh row)
      as [(_ & H0 & _) | (w & (Hw & _) & _ & Hsel)]; [lia|].
    unfold fills in Hw. rewrite list_lookup_fmap in Hw.
    destruct (options row !! w) as [b|] eqn:Hb; [|done].
    destruct (box_of b) as [[[x1 y1] x2] y2] eqn:Hbox.
    exists (rectangle (x1, y1, x2, y2) "red" 4). split; [|done].
    apply question_shapes_elem.
    exists (chr (65 + Z.of_nat w)), x1, y1, x2, y2. split.
    + apply row_items_elem. exists w, b. by rewrite Hbox.
    + right. rewrite Hget. unfold answer_of.
      replace (50 <? max_filled_pixels (scan_row thresh row)) with true
        by (symmetry; by apply Z.ltb_lt).
      rewrite Hsel in *. split; [done|]. split; [|by left]. congruence.
Qed.

Lemma X16_example_witness :
  bubble_contours example_contours <> []
  /\ exists sa co n,
       detect_bubbles (inked 1) example_contours = Tuple3 sa co n
       /\ co !! 1
          = Some (list_to_map (row_items [blob 600 10 10; blob 600 50 12])).
Proof.
  assert (Hne : bubble_contours example_contours <> []) by discriminate.
  split; [exact Hne|].
  destruct (X16_red_marks_of_detected_sheet (inked 1) example_contours Hne)
    as (sa & co & n & Hd & Hq).
  exists sa, co, n. split; [exact Hd|].
  apply (Hq ∅ 1 (row_items [blob 600 10 10; blob 600 50 12])).
  apply list_elem_of_here.
Defined.

(** ** Grading through the pipeline *)

(** X17: with candidates on both sheets [process_sheet] returns the
    student's detected answers and coordinates, the key's detected answers
    and the key's question count, and the three counters add up to that
    count. *)
Theorem X17_pipeline_totals (student key : sheet) :
  bubble_contours (contours student) <> [] ->
  bubble_contours (contours key) <> [] ->
  exists sa co ns ka kc nk g,
    detect_bubbles (thresh student) (contours student) = Tuple3 sa co ns
    /\ detect_bubbles (thresh key) (contours key) = Tuple3 ka kc nk
    /\ process_sheet student (Some key) = inr (Result sa co (Some g))
    /\ correct_answers g = ka
    /\ total_questions g = nk
    /\ correct_count g + incorrect_count g + unanswered_count g = nk.
Proof.
  intros Hs Hk.
  destruct (process_sheet_graded_inv _ _ Hs Hk)
    as (sa & co & ka & kc & g & Hds & Hdk & Hg & Hp).
  set (nk := Z.of_nat (length (rows_of (contours key)))) in *.
  assert (Hnk : 1 <= nk).
  { subst nk. destruct (rows_of (contours key)) eqn:E; [|simpl; lia].
    apply rows_of_nil_iff in E. done. }
  eexists sa, co, _, ka, kc, nk, g.
  split; [exact Hds|]. split; [exact Hdk|]. split; [exact Hp|].
  rewrite grade_nonzero in Hg by lia. simpl in Hg. injection Hg as <-. simpl.
  split; [done|]. split; [done|].
  destruct (grade_loop_tally sa ka nk) as (_ & -> & -> & ->).
  rewrite tally_total, range_length. lia.
Qed.

Lemma X17_example_witness :
  bubble_contours (contours short_sheet) <> []
  /\ bubble_contours (contours example_sheet) <> []
  /\ exists r, process_sheet short_sheet (Some example_sheet) = inr r.
Proof.
  assert (Hs : bubble_contours (contours short_sheet) <> []) by discriminate.
  assert (Hk : bubble_contours (contours example_sheet) <> [])
    by discriminate.
  split; [exact Hs|]. split; [exact Hk|].
  destruct (X17_pipeline_totals short_sheet example_sheet Hs Hk)
    as (sa & co & ns & ka & kc & nk & g & _ & _ & Hp & _).
  eexists. exact Hp.
Defined.


